(* Shallow embedding of the retrieval, parsing and caching core of the
   kyobobook plugin (src/src/infrastructure, src/src/application,
   src/unnamed/part_007) and the properties of its specification. *)

From Stdlib Require Import ZArith List Bool String Lia QArith.
Import ListNotations.

Open Scope Z_scope.

(* ------------------------------------------------------------------ *)
(** * HTTP retrieval client (KyobobookClient.ts) *)
(* ------------------------------------------------------------------ *)

Module Http.

(** What the transport ([requestUrl]) does on one call: it answers with a
    status and a body, or its promise rejects (network failure, timeout). *)
Inductive Outcome :=
| Resp (status : Z) (text : string)
| Reject.

(** The [NetworkError]s raised by [executeRequest]. *)
Inductive ReqErr :=
| ErrTransport            (* '네트워크 요청 실행 실패' *)
| ErrHttp (status : Z)    (* `HTTP 오류: ${status}` *)
| ErrEmpty.               (* '빈 응답 또는 잘못된 응답 형식' *)

(** [executeRequest]: one attempt, no retry. *)
Definition executeRequest (o : Outcome) : ReqErr + (Z * string) :=
  match o with
  | Reject => inl ErrTransport
  | Resp s t =>
      if (s <? 200) || (300 <=? s) then inl (ErrHttp s)
      else if String.eqb t EmptyString then inl ErrEmpty
      else inr (s, t)
  end.

(** A run of the retry loop: its final outcome ([inl lastError] is the
    final [NetworkError] wrapping the last attempt's error), the attempt
    numbers issued, and the backoff delays slept (in ms). *)
Record RetryRun := {
  run_outcome : option ReqErr + (Z * string);
  run_attempts : list nat;
  run_delays : list Z
}.

(** [executeWithRetry]: `for (attempt = 1; attempt <= retries; attempt++)`,
    sleeping `1000 * 2^(attempt-1)` after a failure when
    `attempt < retries`. [transport k] is the outcome of attempt [k]. *)
Fixpoint retry_from (transport : nat -> Outcome) (retries attempt fuel : nat)
    (lastError : option ReqErr) : RetryRun :=
  match fuel with
  | O => {| run_outcome := inl lastError; run_attempts := []; run_delays := [] |}
  | S f =>
      match executeRequest (transport attempt) with
      | inr r => {| run_outcome := inr r; run_attempts := [attempt]; run_delays := [] |}
      | inl e =>
          let rest := retry_from transport retries (S attempt) f (Some e) in
          let d := if (attempt <? retries)%nat
                   then [1000 * 2 ^ (Z.of_nat attempt - 1)] else [] in
          {| run_outcome := run_outcome rest;
             run_attempts := attempt :: run_attempts rest;
             run_delays := d ++ run_delays rest |}
      end
  end.

Definition executeWithRetry (transport : nat -> Outcome) (retries : nat) : RetryRun :=
  retry_from transport retries 1 retries None.

(** `options.retries || fallback`: an absent or zero count falls back. *)
Definition or_retries (opt : option nat) (fallback : nat) : nat :=
  match opt with
  | Some n => if (n =? 0)%nat then fallback else n
  | None => fallback
  end.

(** The constructor's [baseOptions.retries] and [mergeOptions]. *)
Definition base_retries (ctor_retries : option nat) : nat := or_retries ctor_retries 3.

Definition merged_retries (ctor_retries call_retries : option nat) : nat :=
  or_retries call_retries (base_retries ctor_retries).

(** [get url options] as far as the retry behaviour goes. *)
Definition get (ctor_retries call_retries : option nat) (transport : nat -> Outcome)
    : RetryRun :=
  executeWithRetry transport (merged_retries ctor_retries call_retries).

Definition always (o : Outcome) : nat -> Outcome := fun _ => o.

End Http.

(* ------------------------------------------------------------------ *)
(** * JavaScript strings and regular expressions *)
(* ------------------------------------------------------------------ *)

(** A JavaScript string as the list of its code points. *)
Module JS.

Definition ustr := list Z.

Definition ceqb (a b : Z) : bool := Z.eqb a b.

Definition in_range (lo hi c : Z) : bool := (lo <=? c) && (c <=? hi).

(** [\d]: ASCII digits only. *)
Definition is_digit (c : Z) : bool := in_range 48 57 c.

(** [\s] and the characters [String.prototype.trim] removes: white space
    and line terminators. *)
Definition is_space (c : Z) : bool :=
  in_range 9 13 c || ceqb c 32 || ceqb c 160 || ceqb c 5760
  || in_range 8192 8202 c || ceqb c 8232 || ceqb c 8233 || ceqb c 8239
  || ceqb c 8287 || ceqb c 12288 || ceqb c 65279.

(** [.length] counts UTF-16 code units. *)
Definition length (s : ustr) : nat :=
  fold_right (fun c n => if 65535 <? c then S (S n) else S n) O s.

Fixpoint ltrim (s : ustr) : ustr :=
  match s with
  | c :: r => if is_space c then ltrim r else s
  | [] => []
  end.

Definition trim (s : ustr) : ustr := rev (ltrim (rev (ltrim s))).

Fixpoint take_while (p : Z -> bool) (s : ustr) : ustr :=
  match s with
  | c :: r => if p c then c :: take_while p r else []
  | [] => []
  end.

Fixpoint drop_while (p : Z -> bool) (s : ustr) : ustr :=
  match s with
  | c :: r => if p c then drop_while p r else s
  | [] => []
  end.

Fixpoint prefixb (p s : ustr) : bool :=
  match p, s with
  | [], _ => true
  | a :: p', b :: s' => ceqb a b && prefixb p' s'
  | _ :: _, [] => false
  end.

(** [s.includes(p)]. *)
Fixpoint includes (s p : ustr) : bool :=
  prefixb p s || match s with [] => false | _ :: r => includes r p end.

Fixpoint join (sep : ustr) (xs : list ustr) : ustr :=
  match xs with
  | [] => []
  | [x] => x
  | x :: r => x ++ sep ++ join sep r
  end.

(** [s.split(c)] for a one-character separator. *)
Fixpoint split_char (c : Z) (s : ustr) : list ustr :=
  match s with
  | [] => [[]]
  | d :: r =>
      if ceqb c d then [] :: split_char c r
      else match split_char c r with
           | x :: xs => (d :: x) :: xs
           | [] => [[d]]
           end
  end.

(** [s.split(/c+/)]: the separators are maximal runs of [c]. *)
Definition split_runs (c : Z) (s : ustr) : list ustr :=
  let fix go (s : ustr) (in_run : bool) : list ustr :=
    match s with
    | [] => [[]]
    | d :: r =>
        if ceqb c d then (if in_run then go r true else [] :: go r true)
        else match go r false with
             | x :: xs => (d :: x) :: xs
             | [] => [[d]]
             end
    end in
  match s with
  | [] => [[]]
  | d :: r => if ceqb c d then [] :: go r true else go s false
  end.

(** Order-preserving deduplication, as [Array.from(new Set(xs))]. *)
Fixpoint mem (x : ustr) (xs : list ustr) : bool :=
  match xs with
  | [] => false
  | y :: r => (if list_eq_dec Z.eq_dec x y then true else false) || mem x r
  end.

Definition uniq (xs : list ustr) : list ustr :=
  rev (fold_left (fun acc x => if mem x acc then acc else x :: acc) xs []).

End JS.

(** A backtracking matcher for the regular expressions the code uses, with
    the ECMAScript priorities: greedy quantifiers, left alternative first,
    the leftmost match wins, one capture group. *)
Module Regex.
Import JS.

Inductive re :=
| Eps
| Chr (p : Z -> bool)         (* one character of a class *)
| Seq (r1 r2 : re)
| Alt (r1 r2 : re)
| Star (p : Z -> bool)        (* greedy [class]* *)
| Opt (r : re)                (* greedy r? *)
| Group (r : re)              (* the capture group 1 *)
| Bol                         (* ^ without the m flag *)
| Eol                         (* $ without the m flag *)
| WordEnd.                    (* \b right after a word character *)

(** [\w]. *)
Definition is_word (c : Z) : bool :=
  in_range 48 57 c || in_range 65 90 c || in_range 97 122 c || ceqb c 95.

Definition Plus (p : Z -> bool) : re := Seq (Chr p) (Star p).

Fixpoint Str (s : ustr) : re :=
  match s with
  | [] => Eps
  | c :: r => Seq (Chr (ceqb c)) (Str r)
  end.

Definition Any (rs : list re) : re := fold_right Alt (Chr (fun _ => false)) rs.

(** A match result: the remaining input and the capture. *)
Definition res := (ustr * option ustr)%type.

(** [mt total r s g k]: match [r] at suffix [s] of an input of [total]
    characters, with capture [g], passing the remaining input to the
    continuation [k] (backtracking into [r] when [k] fails). *)
Fixpoint mt (total : nat) (r : re) (s : ustr) (g : option ustr)
    (k : ustr -> option ustr -> option res) {struct r} : option res :=
  match r with
  | Eps => k s g
  | Chr p => match s with c :: s' => if p c then k s' g else None | [] => None end
  | Seq r1 r2 => mt total r1 s g (fun s' g' => mt total r2 s' g' k)
  | Alt r1 r2 =>
      match mt total r1 s g k with
      | Some x => Some x
      | None => mt total r2 s g k
      end
  | Star p =>
      (fix star (s : ustr) : option res :=
         match s with
         | c :: s' =>
             if p c then match star s' with Some x => Some x | None => k s g end
             else k s g
         | [] => k [] g
         end) s
  | Opt r1 =>
      match mt total r1 s g k with
      | Some x => Some x
      | None => k s g
      end
  | Group r1 =>
      mt total r1 s g (fun s' _ => k s' (Some (firstn (List.length s - List.length s') s)))
  | Bol => if Nat.eqb (List.length s) total then k s g else None
  | Eol => match s with [] => k s g | _ => None end
  | WordEnd => match s with c :: _ => if is_word c then None else k s g | [] => k s g end
  end.

Definition match_at (total : nat) (r : re) (s : ustr) : option res :=
  mt total r s None (fun s' g => Some (s', g)).

(** [s.match(r)] without the g flag: the leftmost match, as
    (text before it, remaining input, capture). *)
Fixpoint exec_from (total : nat) (r : re) (pre : ustr) (s : ustr)
    : option (ustr * res) :=
  match match_at total r s with
  | Some m => Some (rev pre, m)
  | None => match s with
            | [] => None
            | c :: s' => exec_from total r (c :: pre) s'
            end
  end.

Definition exec (r : re) (s : ustr) : option (ustr * res) :=
  exec_from (List.length s) r [] s.

(** [r.test(s)]. *)
Definition test (r : re) (s : ustr) : bool :=
  match exec r s with Some _ => true | None => false end.

(** [s.replace(r, rep)] with the g flag: every match from left to right;
    after an empty match one character is copied and the scan moves on. *)
Fixpoint replace_from (fuel total : nat) (r : re) (rep : ustr) (s : ustr) : ustr :=
  match fuel with
  | O => s
  | S f =>
      match match_at total r s with
      | Some (s', _) =>
          if Nat.eqb (List.length s') (List.length s) then
            match s with
            | [] => rep
            | c :: t => rep ++ c :: replace_from f total r rep t
            end
          else rep ++ replace_from f total r rep s'
      | None =>
          match s with
          | [] => []
          | c :: t => c :: replace_from f total r rep t
          end
      end
  end.

Definition replace_all (r : re) (rep : ustr) (s : ustr) : ustr :=
  replace_from (S (List.length s)) (List.length s) r rep s.

End Regex.

(* ------------------------------------------------------------------ *)
(** * HTML to Markdown and table-of-contents formatting
      (BookDetailParser.convertHtmlToMarkdown, formatTableOfContents) *)
(* ------------------------------------------------------------------ *)

Module Toc.
Import JS Regex.

Definition c_lt := 60.
Definition c_gt := 62.
Definition c_slash := 47.
Definition c_nl := 10.
Definition c_cr := 13.
Definition c_dot := 46.
Definition c_sp := 32.
Definition c_tab := 9.
Definition c_dash := 45.
Definition c_amp := 38.
Definition c_semi := 59.

(** A character matched case-insensitively (the i flag). *)
Definition ci (c : Z) : Z -> bool :=
  if in_range 97 122 c then fun x => ceqb x c || ceqb x (c - 32) else ceqb c.

Fixpoint CiStr (s : ustr) : re :=
  match s with
  | [] => Eps
  | c :: r => Seq (Chr (ci c)) (CiStr r)
  end.

Definition not_gt (x : Z) : bool := negb (ceqb x c_gt).

(** [<tag[^>]*>] and [</tag>]. *)
Definition open_tag (t : ustr) : re := Seq (Chr (ceqb c_lt)) (Seq (CiStr t) (Seq (Star not_gt) (Chr (ceqb c_gt)))).
Definition close_tag (t : ustr) : re := Seq (Chr (ceqb c_lt)) (Seq (Chr (ceqb c_slash)) (Seq (CiStr t) (Chr (ceqb c_gt)))).
Definition spaces : re := Star is_space.

Definition t_br : ustr := [98; 114].        (* br *)
Definition t_p : ustr := [112].             (* p *)
Definition t_div : ustr := [100; 105; 118]. (* div *)
Definition t_li : ustr := [108; 105].       (* li *)

(** The conversion table of [convertHtmlToMarkdown], applied in order. *)
Definition conversions : list (re * ustr) :=
  [ (* /<br\s*\/?>/gi -> \n *)
    (Seq (Chr (ceqb c_lt)) (Seq (CiStr t_br) (Seq spaces (Seq (Opt (Chr (ceqb c_slash))) (Chr (ceqb c_gt))))), [c_nl]);
    (* /<\/p>\s*<p[^>]*>/gi -> \n\n *)
    (Seq (close_tag t_p) (Seq spaces (open_tag t_p)), [c_nl; c_nl]);
    (* /<p[^>]*>/gi -> '' *)
    (open_tag t_p, []);
    (* /<\/p>/gi -> \n *)
    (close_tag t_p, [c_nl]);
    (* /<\/div>\s*<div[^>]*>/gi -> \n *)
    (Seq (close_tag t_div) (Seq spaces (open_tag t_div)), [c_nl]);
    (* /<div[^>]*>/gi -> '' *)
    (open_tag t_div, []);
    (* /<\/div>/gi -> \n *)
    (close_tag t_div, [c_nl]);
    (* /<\/li>\s*<li[^>]*>/gi -> \n *)
    (Seq (close_tag t_li) (Seq spaces (open_tag t_li)), [c_nl]);
    (* /<li[^>]*>/gi -> '• ' *)
    (open_tag t_li, [8226; c_sp]);
    (* /<\/li>/gi -> \n *)
    (close_tag t_li, [c_nl]);
    (* /<\/?[uo]l[^>]*>/gi -> \n *)
    (Seq (Chr (ceqb c_lt)) (Seq (Opt (Chr (ceqb c_slash)))
       (Seq (Chr (fun x => ci 117 x || ci 111 x)) (Seq (Chr (ci 108))
       (Seq (Star not_gt) (Chr (ceqb c_gt)))))), [c_nl]);
    (* /<[^>]+>/g -> '' *)
    (Seq (Chr (ceqb c_lt)) (Seq (Plus not_gt) (Chr (ceqb c_gt))), []);
    (* /&nbsp;/gi -> ' ' *)
    (Seq (Chr (ceqb c_amp)) (Seq (CiStr [110; 98; 115; 112]) (Chr (ceqb c_semi))), [c_sp]);
    (* /&lt;/gi -> '<' *)
    (Seq (Chr (ceqb c_amp)) (Seq (CiStr [108; 116]) (Chr (ceqb c_semi))), [c_lt]);
    (* /&gt;/gi -> '>' *)
    (Seq (Chr (ceqb c_amp)) (Seq (CiStr [103; 116]) (Chr (ceqb c_semi))), [c_gt]);
    (* /&amp;/gi -> '&' *)
    (Seq (Chr (ceqb c_amp)) (Seq (CiStr [97; 109; 112]) (Chr (ceqb c_semi))), [c_amp]);
    (* /&quot;/gi -> a double quote *)
    (Seq (Chr (ceqb c_amp)) (Seq (CiStr [113; 117; 111; 116]) (Chr (ceqb c_semi))), [34]);
    (* /&#39;/gi -> "'" *)
    (Seq (Chr (ceqb c_amp)) (Str [35; 51; 57; c_semi]), [39]);
    (* /\n\s*\n\s*\n/g -> \n\n *)
    (Seq (Chr (ceqb c_nl)) (Seq spaces (Seq (Chr (ceqb c_nl)) (Seq spaces (Chr (ceqb c_nl))))), [c_nl; c_nl]);
    (* /^\s*\n+/g -> '' *)
    (Seq Bol (Seq spaces (Plus (ceqb c_nl))), []);
    (* /\n+\s*$/g -> '' *)
    (Seq (Plus (ceqb c_nl)) (Seq spaces Eol), []) ].

Definition convertHtmlToMarkdown (html : ustr) : ustr :=
  fold_left (fun md rr => replace_all (fst rr) (snd rr) md) conversions html.

(** Hangul syllables [가-힣]. *)
Definition is_hangul (c : Z) : bool := in_range 44032 55203 c.

(** /^(제?\s*\d+[장절부편]|Chapter\s*\d+|Part\s*\d+|\d+\.|\d+\s*-)/i *)
Definition chapter_re : re :=
  Seq Bol (Group (Any
    [ Seq (Opt (Chr (ceqb 51228))) (Seq spaces (Seq (Plus is_digit)
        (Chr (fun x => ceqb x 51109 || ceqb x 51208 || ceqb x 48512 || ceqb x 54200))));
      Seq (CiStr [99; 104; 97; 112; 116; 101; 114]) (Seq spaces (Plus is_digit));
      Seq (CiStr [112; 97; 114; 116]) (Seq spaces (Plus is_digit));
      Seq (Plus is_digit) (Chr (ceqb c_dot));
      Seq (Plus is_digit) (Seq spaces (Chr (ceqb c_dash))) ])).

(** /^(\d+\.\d+|\d+-\d+|[가-힣]\.|[\(（]\d+[\)）])/i *)
Definition subheading_re : re :=
  Seq Bol (Group (Any
    [ Seq (Plus is_digit) (Seq (Chr (ceqb c_dot)) (Plus is_digit));
      Seq (Plus is_digit) (Seq (Chr (ceqb c_dash)) (Plus is_digit));
      Seq (Chr is_hangul) (Chr (ceqb c_dot));
      Seq (Chr (fun x => ceqb x 40 || ceqb x 65288)) (Seq (Plus is_digit)
        (Chr (fun x => ceqb x 41 || ceqb x 65289))) ])).

Definition structure_line (line : ustr) : list ustr :=
  if test chapter_re line then [line]
  else if test subheading_re line then [[c_sp; c_sp] ++ line]
  else if (3 <? length line)%nat && (length line <? 100)%nat then [line]
  else [].

Definition formatTableOfContents (rawContent : ustr) : ustr :=
  let formatted := convertHtmlToMarkdown rawContent in
  let formatted := replace_all (Seq (Chr (ceqb c_cr)) (Opt (Chr (ceqb c_nl)))) [c_nl] formatted in
  let formatted := join [c_nl] (map (fun line =>
        trim (replace_all (Seq (Chr (fun x => ceqb x c_tab || ceqb x c_sp))
                               (Plus (fun x => ceqb x c_tab || ceqb x c_sp))) [c_sp] line))
        (split_char c_nl formatted)) in
  let formatted := trim (replace_all (Seq (Chr (ceqb c_nl)) (Seq (Chr (ceqb c_nl)) (Plus (ceqb c_nl))))
                          [c_nl; c_nl] formatted) in
  let lines := filter (fun l => (0 <? length l)%nat) (map trim (split_runs c_nl formatted)) in
  let structuredToc := flat_map structure_line lines in
  match structuredToc with
  | [] => formatted
  | _ => join [c_nl] structuredToc
  end.

End Toc.

(** The next-sibling path of [BookDetailParser.extractTableOfContents].
    The DOM queries are represented by their answers: a sibling element is
    given by the innerHTML of its [li.book_contents_item]-like matches,
    of its first [.auto_overflow_wrap, .box_detail_content, ...] descendant
    (with the innerHTML of that box's [.auto_overflow_contents]), of its
    own [.auto_overflow_contents] descendant, and its own innerHTML. *)
Module TocDom.
Import JS Toc.

Definition MAX_TOC_LENGTH : nat := 10000.

Record Sibling := {
  sib_items : list ustr;
  sib_box : option (ustr * option ustr);
  sib_overflow : option ustr;
  sib_html : ustr
}.

(** A heading matched by 'h1, h2, h3, h4, h5, h6': its [extractText] and
    its [nextElementSibling]. *)
Record Heading := {
  h_text : ustr;
  h_next : option Sibling
}.

Definition mokcha : ustr := [47785; 52264]. (* 목차 *)

(** `a?.innerHTML || b`: an absent or empty string falls back. *)
Definition or_html (a : option ustr) (b : ustr) : ustr :=
  match a with
  | Some ((_ :: _) as x) => x
  | _ => b
  end.

(** Lines collected from the list items: each item's Markdown split on
    newlines, trimmed, kept when `t.length > 1 && t.length < 300`. *)
Definition item_lines (items : list ustr) : list ustr :=
  flat_map (fun html =>
    filter (fun t => (1 <? length t)%nat && (length t <? 300)%nat)
      (map trim (split_char c_nl (convertHtmlToMarkdown html)))) items.

Definition next_sibling_toc (next : Sibling) : option ustr :=
  let uq := uniq (item_lines (sib_items next)) in
  match sib_items next, uq with
  | _ :: _, _ :: _ => Some (formatTableOfContents (join [c_nl] uq))
  | _, _ =>
      let html := match sib_box next with
                  | Some (bh, bo) => or_html bo bh
                  | None => or_html (sib_overflow next) (sib_html next)
                  end in
      match html with
      | [] => None
      | _ =>
          let md := trim (convertHtmlToMarkdown html) in
          if (10 <? length md)%nat && (length md <=? MAX_TOC_LENGTH)%nat
          then Some (formatTableOfContents md) else None
      end
  end.

Fixpoint find_toc_heading (hs : list Heading) : option Heading :=
  match hs with
  | [] => None
  | h :: r => if includes (h_text h) mokcha then Some h else find_toc_heading r
  end.

(** [extractTableOfContents]: the first heading whose text includes
    "목차" is the TOC section; its next sibling is tried first. [rest] is
    the outcome of the strategies that follow (the parent's next sibling,
    the section scan, the id/selector containers, the full-text pattern,
    the generic selectors), reached only when the earlier ones give
    nothing. *)
Definition extractTableOfContents (headings : list Heading) (rest : option ustr)
    : option ustr :=
  match find_toc_heading headings with
  | Some h =>
      match match h_next h with Some n => next_sibling_toc n | None => None end with
      | Some t => Some t
      | None => rest
      end
  | None => rest
  end.

End TocDom.

(* ------------------------------------------------------------------ *)
(** * Rating extraction (TextUtils.extractRating) *)
(* ------------------------------------------------------------------ *)

Module Rating.
Import JS Regex.
Open Scope Q_scope.

Definition c_dot : Z := 46.
Definition c_jeom : Z := 51216. (* 점 *)

(** The pattern [(\d+\.?\d* )\s*점?] (without the space before the closing parenthesis). *)
Definition ratingPattern : re :=
  Seq (Group (Seq (Plus is_digit) (Seq (Opt (Chr (ceqb c_dot))) (Star is_digit))))
      (Seq (Star is_space) (Opt (Chr (ceqb c_jeom)))).

Fixpoint span_digits (s : ustr) : ustr * ustr :=
  match s with
  | c :: r => if is_digit c then let (ds, t) := span_digits r in (c :: ds, t) else ([], s)
  | [] => ([], [])
  end.

Definition digits_value (ds : ustr) : Z :=
  fold_left (fun acc d => (acc * 10 + (d - 48))%Z) ds 0%Z.

(** [parseFloat] on decimal text: leading white space skipped, then
    digits, an optional dot and digits; NaN (None) without any digit.
    The value is the exact decimal (the double rounding of [parseFloat]
    is not represented). Signs and exponents never reach it here: the
    captured text consists of digits and at most one dot. *)
Definition parseFloat (s : ustr) : option Q :=
  let (ds, r) := span_digits (ltrim s) in
  let fs := match r with c :: r' => if ceqb c c_dot then fst (span_digits r') else [] | [] => [] end in
  match ds ++ fs with
  | [] => None
  | all => Some (inject_Z (digits_value all) / inject_Z (10 ^ Z.of_nat (List.length fs)))
  end.

(** [TextUtils.extractNumber]. *)
Definition extractNumber (text : ustr) (pattern : re) : option Q :=
  match text with
  | [] => None
  | _ =>
      match exec pattern text with
      | Some (_, (_, Some ((_ :: _) as cap))) => parseFloat cap
      | _ => None
      end
  end.

(** [TextUtils.extractRating]. *)
Definition extractRating (text : ustr) : option Q :=
  match extractNumber text ratingPattern with
  | None => None
  | Some rating =>
      if Qle_bool rating 5 then Some (rating * 2)
      else if Qle_bool rating 10 then Some rating else None
  end.

(** The first number of a text, as the regular expression reads it: the
    text from the first digit on, and the decimal that starts there
    (maximal digits, an optional dot, maximal digits). *)
Definition first_digit_suffix (text : ustr) : ustr :=
  drop_while (fun c => negb (is_digit c)) text.

Definition decimal_prefix (s : ustr) : ustr :=
  take_while is_digit s ++
  match drop_while is_digit s with
  | c :: r => if ceqb c c_dot then c :: take_while is_digit r else []
  | [] => []
  end.

End Rating.

(* ------------------------------------------------------------------ *)
(** * The Book record and BookFactory (types.ts) *)
(* ------------------------------------------------------------------ *)

Module Books.
Import JS.

(** Exceptions the modelled code can raise. *)
Inductive Exn :=
| ExnMsg (m : string)
| TypeError.

Definition Try (A : Type) : Type := (Exn + A)%type.

(** A dynamically typed JavaScript value, where one reaches the code
    untyped (values read from JSON-LD). *)
Inductive JsVal :=
| JStr (s : ustr)
| JNum (q : Q)
| JObj.

Definition nonempty (s : ustr) : bool := match s with [] => false | _ => true end.

Definition truthy (v : JsVal) : bool :=
  match v with
  | JStr s => nonempty s
  | JNum q => negb (Qeq_bool q 0)
  | JObj => true
  end.

(** [v.trim()]: a TypeError unless [v] is a string. *)
Definition js_trim (v : JsVal) : Try ustr :=
  match v with
  | JStr s => inr (trim s)
  | _ => inl TypeError
  end.

(** The fields of [Book] the claims are about ([tags], [createdAt] and
    [updatedAt] are left out: no claim reads them). *)
Record Book := {
  id : ustr;
  title : ustr;
  authors : list ustr;
  publisher : ustr;
  subtitle : option ustr;
  publishDate : option ustr;
  isbn : option ustr;
  pages : option Q;
  language : ustr;
  description : option ustr;
  tableOfContents : option ustr;
  categories : option (list ustr);
  rating : option Q;
  coverImageUrl : option ustr;
  detailPageUrl : option ustr
}.

Record CreateBookInput := {
  c_id : ustr;
  c_title : ustr;
  c_authors : list ustr;
  c_publisher : ustr;
  c_subtitle : option ustr;
  c_publishDate : option ustr;
  c_isbn : option ustr;
  c_pages : option Q;
  c_language : option ustr;
  c_description : option ustr;
  c_tableOfContents : option ustr;
  c_categories : option (list ustr);
  c_rating : option Q;
  c_coverImageUrl : option ustr;
  c_detailPageUrl : option ustr
}.

(** [UpdateBookInput]; the fields JSON-LD can fill carry untyped values. *)
Record UpdateBookInput := {
  u_title : option JsVal;
  u_authors : option (list JsVal);
  u_publisher : option JsVal;
  u_subtitle : option ustr;
  u_publishDate : option ustr;
  u_isbn : option ustr;
  u_pages : option Q;
  u_language : option ustr;
  u_description : option JsVal;
  u_tableOfContents : option ustr;
  u_categories : option (list ustr);
  u_rating : option Q;
  u_coverImageUrl : option JsVal;
  u_detailPageUrl : option ustr
}.

Definition no_updates : UpdateBookInput :=
  {| u_title := None; u_authors := None; u_publisher := None; u_subtitle := None;
     u_publishDate := None; u_isbn := None; u_pages := None; u_language := None;
     u_description := None; u_tableOfContents := None; u_categories := None;
     u_rating := None; u_coverImageUrl := None; u_detailPageUrl := None |}.

(** `pages && pages > 0 ? pages : undefined` *)
Definition positive_pages (p : option Q) : option Q :=
  match p with
  | Some n => if Qlt_le_dec 0 n then Some n else None
  | None => None
  end.

(** `rating && rating >= 0 && rating <= 10 ? rating : undefined` *)
Definition valid_rating (r : option Q) : option Q :=
  match r with
  | Some x => if negb (Qeq_bool x 0) && Qle_bool 0 x && Qle_bool x 10 then Some x else None
  | None => None
  end.

Definition trim_all (xs : list ustr) : list ustr := filter nonempty (map trim xs).

Definition ko : ustr := [107; 111].

(** [BookFactory.create]. *)
Definition create (i : CreateBookInput) : Book :=
  {| id := c_id i;
     title := trim (c_title i);
     authors := trim_all (c_authors i);
     publisher := trim (c_publisher i);
     subtitle := option_map trim (c_subtitle i);
     publishDate := c_publishDate i;
     isbn := option_map trim (c_isbn i);
     pages := positive_pages (c_pages i);
     language := match c_language i with Some ((_ :: _) as l) => l | _ => ko end;
     description := option_map trim (c_description i);
     tableOfContents := option_map trim (c_tableOfContents i);
     categories := option_map trim_all (c_categories i);
     rating := valid_rating (c_rating i);
     coverImageUrl := option_map trim (c_coverImageUrl i);
     detailPageUrl := option_map trim (c_detailPageUrl i) |}.

Definition try_bind {A B} (x : Try A) (f : A -> Try B) : Try B :=
  match x with inl e => inl e | inr a => f a end.

Notation "x <- c ;; k" := (try_bind c (fun x => k)) (at level 61, c at next level, right associativity).

(** `updates.f !== undefined && { f: g(updates.f) }`: a present update
    replaces the field, an absent one keeps it. *)
Definition upd {A B} (u : option A) (g : A -> Try B) (old : B) : Try B :=
  match u with
  | Some a => g a
  | None => inr old
  end.

Fixpoint try_map {A B} (f : A -> Try B) (xs : list A) : Try (list B) :=
  match xs with
  | [] => inr []
  | x :: r => y <- f x ;; ys <- try_map f r ;; inr (y :: ys)
  end.

(** `authors.map(a => a.trim()).filter(Boolean)` *)
Definition trim_authors (xs : list JsVal) : Try (list ustr) :=
  ys <- try_map js_trim xs ;; inr (filter nonempty ys).

(** `updates.f?.trim()` for an optional field. *)
Definition js_trim_opt (v : JsVal) : Try (option ustr) :=
  match js_trim v with
  | inl e => inl e
  | inr x => inr (Some x)
  end.

(** [BookFactory.update]; it throws when a JSON-LD value that is not a
    string reaches a [.trim()]. *)
Definition update (b : Book) (u : UpdateBookInput) : Try Book :=
  t <- upd (u_title u) js_trim (title b) ;;
  a <- upd (u_authors u) trim_authors (authors b) ;;
  p <- upd (u_publisher u) js_trim (publisher b) ;;
  d <- upd (u_description u) js_trim_opt (description b) ;;
  c <- upd (u_coverImageUrl u) js_trim_opt (coverImageUrl b) ;;
  inr {| id := id b;
         title := t;
         authors := a;
         publisher := p;
         subtitle := match u_subtitle u with Some s => Some (trim s) | None => subtitle b end;
         publishDate := match u_publishDate u with Some s => Some s | None => publishDate b end;
         isbn := match u_isbn u with Some s => Some (trim s) | None => isbn b end;
         pages := match u_pages u with Some n => positive_pages (Some n) | None => pages b end;
         language := match u_language u with Some l => l | None => language b end;
         description := d;
         tableOfContents := match u_tableOfContents u with
                            | Some s => Some (trim s) | None => tableOfContents b end;
         categories := match u_categories u with
                       | Some cs => Some (trim_all cs) | None => categories b end;
         rating := match u_rating u with Some r => valid_rating (Some r) | None => rating b end;
         coverImageUrl := c;
         detailPageUrl := match u_detailPageUrl u with
                          | Some s => Some (trim s) | None => detailPageUrl b end |}.

End Books.

(* ------------------------------------------------------------------ *)
(** * Detail page enrichment (BookDetailParser.enrichBook,
      extractDetailedInfo, extractPages; TextUtils.extractPages,
      TextUtils.normalizeISBN) *)
(* ------------------------------------------------------------------ *)

Module Detail.
Import JS Regex Books.

(** [TextUtils.normalizeISBN]: keep digits and X/x, upper-case, accept
    lengths 10 and 13. *)
Definition normalizeISBN (s : ustr) : option ustr :=
  match s with
  | [] => None
  | _ =>
      let cleaned := map (fun c => if ceqb c 120 then 88 else c)
                       (filter (fun c => is_digit c || ceqb c 88 || ceqb c 120) s) in
      if (List.length cleaned =? 10)%nat || (List.length cleaned =? 13)%nat
      then Some cleaned else None
  end.

(** The same call on an untyped JSON-LD value (guarded by its truthiness):
    a number or an object has no [.replace] and raises a TypeError. *)
Definition normalizeISBN_js (v : JsVal) : Try (option ustr) :=
  match v with
  | JStr s => inr (normalizeISBN s)
  | _ => inl TypeError
  end.

(** What [extractFromJsonLd] returns when it finds a Book/Product node. *)
Record LdData := {
  ld_name : option JsVal;
  ld_isbn : option JsVal;
  ld_image : option JsVal;
  ld_description : option JsVal;
  ld_publisher : option JsVal;
  ld_authors : option (list JsVal)
}.

(** The outcome of each field extractor on the page: its value, or the
    exception it raises. *)
Record Extractors := {
  x_jsonld : Try (option LdData);
  x_isbn : Try (option ustr);
  x_description : Try (option ustr);
  x_publisher : Try (option ustr);
  x_publishDate : Try (option ustr);
  x_toc : Try (option ustr);
  x_categories : Try (list ustr);
  x_rating : Try (option Q);
  x_cover : Try (option ustr)
}.

(** The tags of the error list, in the order the extractors run. *)
Inductive Tag := TJsonLd | TIsbn | TDescription | TPublisher | TPublishDate
               | TToc | TCategories | TRating | TCover.

Definition tag_eqb (a b : Tag) : bool :=
  match a, b with
  | TJsonLd, TJsonLd | TIsbn, TIsbn | TDescription, TDescription
  | TPublisher, TPublisher | TPublishDate, TPublishDate | TToc, TToc
  | TCategories, TCategories | TRating, TRating | TCover, TCover => true
  | _, _ => false
  end.

(** The parser's [parseResults]: the fields marked found, the error list,
    and (for the model) the extractors invoked, in order. *)
Record ParseResults := {
  pr_found : list Tag;
  pr_errors : list (Tag * Exn);
  pr_ran : list Tag
}.

Definition fresh_results : ParseResults := {| pr_found := []; pr_errors := []; pr_ran := [] |}.

(** One `try { ... } catch (error) { errors.push(...) }` block: the
    extractor runs; its value is merged into the updates (possibly marking
    the field found), or its exception is appended to the error list. *)
Definition step {A} (t : Tag) (outcome : Try A)
    (merge : A -> UpdateBookInput -> Try (UpdateBookInput * bool))
    (st : UpdateBookInput * ParseResults) : UpdateBookInput * ParseResults :=
  let (u, pr) := st in
  let pr := {| pr_found := pr_found pr; pr_errors := pr_errors pr;
               pr_ran := pr_ran pr ++ [t] |} in
  match try_bind outcome (fun a => merge a u) with
  | inl e => (u, {| pr_found := pr_found pr; pr_errors := pr_errors pr ++ [(t, e)];
                    pr_ran := pr_ran pr |})
  | inr (u', found) =>
      (u', if found then {| pr_found := pr_found pr ++ [t]; pr_errors := pr_errors pr;
                            pr_ran := pr_ran pr |} else pr)
  end.

Definition when_truthy (v : option JsVal) : option JsVal :=
  match v with Some x => if truthy x then Some x else None | None => None end.

Definition first_of {A} (a b : option A) : option A :=
  match a with Some _ => a | None => b end.

(** Block 0: the JSON-LD fast path. The ISBN line comes first; a non-string
    ISBN raises before anything is assigned. *)
Definition merge_jsonld (ld : option LdData) (u : UpdateBookInput)
    : Try (UpdateBookInput * bool) :=
  match ld with
  | None => inr (u, false)
  | Some l =>
      i <- match when_truthy (ld_isbn l) with
           | Some v => n <- normalizeISBN_js v ;;
                       inr (Some (match n, v with
                                  | Some x, _ => x
                                  | None, JStr s => s
                                  | None, _ => [] end))
           | None => inr (u_isbn u)
           end ;;
      inr ({| u_title := first_of (u_title u) (when_truthy (ld_name l));
              u_authors := first_of (u_authors u) (ld_authors l);
              u_publisher := first_of (u_publisher u) (when_truthy (ld_publisher l));
              u_subtitle := u_subtitle u;
              u_publishDate := u_publishDate u;
              u_isbn := i;
              u_pages := u_pages u;
              u_language := u_language u;
              u_description := first_of (u_description u) (when_truthy (ld_description l));
              u_tableOfContents := u_tableOfContents u;
              u_categories := u_categories u;
              u_rating := u_rating u;
              u_coverImageUrl := first_of (u_coverImageUrl u) (when_truthy (ld_image l));
              u_detailPageUrl := u_detailPageUrl u |}, false)
  end.

Definition set_isbn (v : ustr) (u : UpdateBookInput) : UpdateBookInput :=
  {| u_title := u_title u; u_authors := u_authors u; u_publisher := u_publisher u;
     u_subtitle := u_subtitle u; u_publishDate := u_publishDate u; u_isbn := Some v;
     u_pages := u_pages u; u_language := u_language u; u_description := u_description u;
     u_tableOfContents := u_tableOfContents u; u_categories := u_categories u;
     u_rating := u_rating u; u_coverImageUrl := u_coverImageUrl u;
     u_detailPageUrl := u_detailPageUrl u |}.

Definition set_description (v : ustr) (u : UpdateBookInput) : UpdateBookInput :=
  {| u_title := u_title u; u_authors := u_authors u; u_publisher := u_publisher u;
     u_subtitle := u_subtitle u; u_publishDate := u_publishDate u; u_isbn := u_isbn u;
     u_pages := u_pages u; u_language := u_language u; u_description := Some (JStr v);
     u_tableOfContents := u_tableOfContents u; u_categories := u_categories u;
     u_rating := u_rating u; u_coverImageUrl := u_coverImageUrl u;
     u_detailPageUrl := u_detailPageUrl u |}.

Definition set_publisher (v : ustr) (u : UpdateBookInput) : UpdateBookInput :=
  {| u_title := u_title u; u_authors := u_authors u; u_publisher := Some (JStr v);
     u_subtitle := u_subtitle u; u_publishDate := u_publishDate u; u_isbn := u_isbn u;
     u_pages := u_pages u; u_language := u_language u; u_description := u_description u;
     u_tableOfContents := u_tableOfContents u; u_categories := u_categories u;
     u_rating := u_rating u; u_coverImageUrl := u_coverImageUrl u;
     u_detailPageUrl := u_detailPageUrl u |}.

Definition set_publishDate (v : ustr) (u : UpdateBookInput) : UpdateBookInput :=
  {| u_title := u_title u; u_authors := u_authors u; u_publisher := u_publisher u;
     u_subtitle := u_subtitle u; u_publishDate := Some v; u_isbn := u_isbn u;
     u_pages := u_pages u; u_language := u_language u; u_description := u_description u;
     u_tableOfContents := u_tableOfContents u; u_categories := u_categories u;
     u_rating := u_rating u; u_coverImageUrl := u_coverImageUrl u;
     u_detailPageUrl := u_detailPageUrl u |}.

Definition set_toc (v : ustr) (u : UpdateBookInput) : UpdateBookInput :=
  {| u_title := u_title u; u_authors := u_authors u; u_publisher := u_publisher u;
     u_subtitle := u_subtitle u; u_publishDate := u_publishDate u; u_isbn := u_isbn u;
     u_pages := u_pages u; u_language := u_language u; u_description := u_description u;
     u_tableOfContents := Some v; u_categories := u_categories u;
     u_rating := u_rating u; u_coverImageUrl := u_coverImageUrl u;
     u_detailPageUrl := u_detailPageUrl u |}.

Definition set_categories (v : list ustr) (u : UpdateBookInput) : UpdateBookInput :=
  {| u_title := u_title u; u_authors := u_authors u; u_publisher := u_publisher u;
     u_subtitle := u_subtitle u; u_publishDate := u_publishDate u; u_isbn := u_isbn u;
     u_pages := u_pages u; u_language := u_language u; u_description := u_description u;
     u_tableOfContents := u_tableOfContents u; u_categories := Some v;
     u_rating := u_rating u; u_coverImageUrl := u_coverImageUrl u;
     u_detailPageUrl := u_detailPageUrl u |}.

Definition set_rating (v : Q) (u : UpdateBookInput) : UpdateBookInput :=
  {| u_title := u_title u; u_authors := u_authors u; u_publisher := u_publisher u;
     u_subtitle := u_subtitle u; u_publishDate := u_publishDate u; u_isbn := u_isbn u;
     u_pages := u_pages u; u_language := u_language u; u_description := u_description u;
     u_tableOfContents := u_tableOfContents u; u_categories := u_categories u;
     u_rating := Some v; u_coverImageUrl := u_coverImageUrl u;
     u_detailPageUrl := u_detailPageUrl u |}.

Definition set_cover (v : JsVal) (u : UpdateBookInput) : UpdateBookInput :=
  {| u_title := u_title u; u_authors := u_authors u; u_publisher := u_publisher u;
     u_subtitle := u_subtitle u; u_publishDate := u_publishDate u; u_isbn := u_isbn u;
     u_pages := u_pages u; u_language := u_language u; u_description := u_description u;
     u_tableOfContents := u_tableOfContents u; u_categories := u_categories u;
     u_rating := u_rating u; u_coverImageUrl := Some v;
     u_detailPageUrl := u_detailPageUrl u |}.

(** `if (value) { updates.f = value; parseResults.f = true; }` for a
    string-valued extractor ([mark] says whether a flag is kept). *)
Definition merge_str (set : ustr -> UpdateBookInput -> UpdateBookInput) (mark : bool)
    (v : option ustr) (u : UpdateBookInput) : Try (UpdateBookInput * bool) :=
  match v with
  | Some ((_ :: _) as x) => inr (set x u, mark)
  | _ => inr (u, false)
  end.

(** [extractDetailedInfo]. The pages extractor is not called (its block
    is commented out in the source). *)
Definition extractDetailedInfo (x : Extractors) (pr : ParseResults)
    : UpdateBookInput * ParseResults :=
  let st := (no_updates, pr) in
  let st := step TJsonLd (x_jsonld x) merge_jsonld st in
  let st := step TIsbn (x_isbn x) (merge_str set_isbn true) st in
  let st := step TDescription (x_description x) (merge_str set_description true) st in
  let st := step TPublisher (x_publisher x) (merge_str set_publisher false) st in
  let st := step TPublishDate (x_publishDate x) (merge_str set_publishDate false) st in
  let st := step TToc (x_toc x) (merge_str set_toc true) st in
  let st := step TCategories (x_categories x)
              (fun cs u => match cs with [] => inr (u, false)
                                    | _ => inr (set_categories cs u, true) end) st in
  let st := step TRating (x_rating x)
              (fun r u => match r with Some v => inr (set_rating v u, true)
                                  | None => inr (u, false) end) st in
  let st := step TCover (x_cover x) (merge_str (fun v => set_cover (JStr v)) true) st in
  st.

(** The error raised by [enrichBook]: a [ParseError] whose context holds
    the book id and whose cause is the original error. *)
Record ParseError := {
  pe_bookId : ustr;
  pe_original : Exn
}.

Section Enrich.

(** [UrlUtils.optimizeImageUrl(UrlUtils.buildCoverImageUrl(code), ...)]:
    a total string function (both catch their own failures). *)
Variable coverUrlFor : ustr -> ustr.

Definition truthy_str (s : option ustr) : option ustr :=
  match s with Some ((_ :: _) as x) => Some x | _ => None end.

(** The cover fallback of [enrichBook]: ISBN first, then the id. *)
Definition with_cover_fallback (b : Book) (u : UpdateBookInput) : UpdateBookInput :=
  match when_truthy (u_coverImageUrl u) with
  | Some _ => u
  | None =>
      let code := match truthy_str (u_isbn u) with
                  | Some c => c
                  | None => match truthy_str (isbn b) with Some c => c | None => id b end
                  end in
      set_cover (JStr (coverUrlFor code)) u
  end.

(** [enrichBook book] on a parser whose results so far are [pr]. *)
Definition enrichBook (x : Extractors) (b : Book) (pr : ParseResults)
    : (ParseError + Book) * ParseResults :=
  let (u, pr') := extractDetailedInfo x pr in
  match update b (with_cover_fallback b u) with
  | inl e => (inl {| pe_bookId := id b; pe_original := e |}, pr')
  | inr b' => (inr b', pr')
  end.

End Enrich.

(** [TextUtils.extractPages]: the four patterns in order; the first whose
    capture parses to a value in (0, 5000) wins. *)
Definition digits_1_4 : re :=
  Seq (Chr is_digit) (Opt (Seq (Chr is_digit) (Opt (Seq (Chr is_digit) (Opt (Chr is_digit)))))).

Definition c_page : ustr := [54168; 51060; 51648]. (* 페이지 *)
Definition c_jjok : Z := 51901.                  (* 쪽 *)
Definition c_jjoksu : ustr := [51901; 49688].    (* 쪽수 *)

Definition pagePatterns : list re :=
  [ (* /(\d{1,4})\s*페이지/ *)
    Seq (Group digits_1_4) (Seq (Star is_space) (Str c_page));
    (* /(\d{1,4})\s*쪽/ *)
    Seq (Group digits_1_4) (Seq (Star is_space) (Chr (ceqb c_jjok)));
    (* /쪽수\s*[:\-]?\s*(\d{1,4})\s*쪽?/ *)
    Seq (Str c_jjoksu) (Seq (Star is_space) (Seq (Opt (Chr (fun c => ceqb c 58 || ceqb c 45)))
      (Seq (Star is_space) (Seq (Group digits_1_4) (Seq (Star is_space) (Opt (Chr (ceqb c_jjok))))))));
    (* /p\.?\s*(\d{1,4})\b/i *)
    Seq (Chr (fun c => ceqb c 112 || ceqb c 80)) (Seq (Opt (Chr (ceqb 46)))
      (Seq (Star is_space) (Seq (Group digits_1_4) WordEnd))) ].

(** [parseInt(digits, 10)] on a non-empty run of digits. *)
Definition parseInt (ds : ustr) : Z := fold_left (fun acc d => acc * 10 + (d - 48)) ds 0.

Definition extractPagesText (text : ustr) : option Z :=
  match text with
  | [] => None
  | _ =>
      let fix go (ps : list re) : option Z :=
        match ps with
        | [] => None
        | p :: rest =>
            match exec p text with
            | Some (_, (_, Some ((_ :: _) as m))) =>
                let num := parseInt m in
                if (0 <? num) && (num <? 5000) then Some num else go rest
            | _ => go rest
            end
        end in
      go pagePatterns
  end.

(** The element texts [BookDetailParser.extractPages] scans, stage by
    stage: the first match of each PAGES selector, the detail containers,
    the label candidates ('li, tr, div, span, td, th, p'), the body. *)
Record PageTexts := {
  pt_selector : list ustr;
  pt_detail : list ustr;
  pt_label : list ustr;
  pt_body : ustr
}.

Fixpoint first_pages (f : ustr -> bool) (ts : list ustr) : option Z :=
  match ts with
  | [] => None
  | t :: r => if f t then match extractPagesText t with
                          | Some n => Some n
                          | None => first_pages f r end
              else first_pages f r
  end.

(** /페이지|쪽수|쪽/ *)
Definition pages_label_re : re :=
  Alt (Str c_page) (Alt (Str c_jjoksu) (Chr (ceqb c_jjok))).

(** [BookDetailParser.extractPages]: the four-stage cascade. *)
Definition extractPages (pt : PageTexts) : option Z :=
  first_of (first_pages (fun _ => true) (pt_selector pt))
  (first_of (first_pages (fun _ => true) (pt_detail pt))
  (first_of (first_pages (fun t => nonempty t && test pages_label_re t) (pt_label pt))
            (extractPagesText (pt_body pt)))).

(** A detail page: the outcome of each extractor [extractDetailedInfo]
    calls, and the texts the (uncalled) pages cascade would scan. *)
Record DetailPage := {
  dp_extractors : Extractors;
  dp_pages : PageTexts
}.

End Detail.

(* ------------------------------------------------------------------ *)
(** * BookService: getBookDetail and searchBooks over an injected cache *)
(* ------------------------------------------------------------------ *)

Module Service.
Import JS Books Detail.

(** What the service does to the outside world, in order: the calls on
    the injected [BookCache] and the detail/search page fetches (one
    [OFetch] per [fetchWithRetry] call). *)
Inductive Op :=
| OHas (k : ustr)
| OGet (k : ustr)
| OSet (k : ustr)
| OFetch (url : ustr).

(** The service state: the entries of the injected cache (first binding
    wins) and the log of operations. *)
Record Svc := {
  store : list (ustr * Book);
  log : list Op
}.

Definition ustr_eqb (a b : ustr) : bool :=
  if list_eq_dec Z.eq_dec a b then true else false.

Fixpoint lookup (k : ustr) (st : list (ustr * Book)) : option Book :=
  match st with
  | [] => None
  | (k', v) :: r => if ustr_eqb k k' then Some v else lookup k r
  end.

Definition emit (o : Op) (s : Svc) : Svc :=
  {| store := store s; log := log s ++ [o] |}.

(** [cache.has(k)]. *)
Definition cache_has (k : ustr) (s : Svc) : bool * Svc :=
  (match lookup k (store s) with Some _ => true | None => false end, emit (OHas k) s).

(** [cache.set(k, v)]. *)
Definition cache_set (k : ustr) (v : Book) (s : Svc) : Svc :=
  {| store := (k, v) :: filter (fun p => negb (ustr_eqb (fst p) k)) (store s);
     log := log s ++ [OSet k] |}.

(** `detail:` and `search:` *)
Definition detail_prefix : ustr := [100; 101; 116; 97; 105; 108; 58].
Definition search_prefix : ustr := [115; 101; 97; 114; 99; 104; 58].

(** `https://product.kyobobook.co.kr/detail/` *)
Definition detail_url_prefix : ustr :=
  map (fun a => Z.of_nat (Ascii.nat_of_ascii a))
      (list_ascii_of_string "https://product.kyobobook.co.kr/detail/"%string).

(** [buildDetailUrl]: prefix `S` unless the id already starts with it. *)
Definition buildDetailUrl (bookId : ustr) : ustr :=
  detail_url_prefix ++ (if prefixb [83] bookId then bookId else 83 :: bookId).

(** The `hasEnriched` test of [getBookDetail]. *)
Definition hasEnriched (b : Book) : bool :=
  match description b with Some d => nonempty (trim d) | None => false end
  || match tableOfContents b with Some t => nonempty (trim t) | None => false end
  || match isbn b with Some i => (10 <=? JS.length (trim i))%nat | None => false end
  || match pages b with Some p => negb (Qle_bool p 0) | None => false end.

(** The base book [getBookDetail] enriches. *)
Definition baseBookInput (bookId url : ustr) : CreateBookInput :=
  {| c_id := bookId; c_title := []; c_authors := []; c_publisher := [];
     c_subtitle := None; c_publishDate := None; c_isbn := None; c_pages := None;
     c_language := Some ko; c_description := None; c_tableOfContents := None;
     c_categories := None; c_rating := None; c_coverImageUrl := None;
     c_detailPageUrl := Some url |}.

(** `BookFactory.update(book, { tableOfContents: toc })`. *)
Definition toc_update (toc : ustr) : UpdateBookInput :=
  {| u_title := None; u_authors := None; u_publisher := None; u_subtitle := None;
     u_publishDate := None; u_isbn := None; u_pages := None; u_language := None;
     u_description := None; u_tableOfContents := Some toc; u_categories := None;
     u_rating := None; u_coverImageUrl := None; u_detailPageUrl := None |}.

Definition with_toc (b : Book) (toc : option ustr) : Book :=
  match toc with
  | Some ((_ :: _) as t) => match update b (toc_update t) with inr b' => b' | inl _ => b end
  | _ => b
  end.

Definition toc_missing (b : Book) : bool :=
  match tableOfContents b with Some t => negb (nonempty (trim t)) | None => true end.

(** The errors [getBookDetail] and [searchBooks] let through. *)
Inductive SvcError :=
| NetworkError (e : Exn)
| DetailParseError (e : ParseError)
| SearchError (m : string).

Record SearchResult := {
  sr_books : list Book;
  sr_totalFound : Z
}.

Section Service.

(** [fetchWithRetry(url)] on a detail page, the page seen through its
    extractors' outcomes. *)
Variable fetchDetail : ustr -> Try DetailPage.
(** The cover URL builder of [enrichBook]. *)
Variable coverUrlFor : ustr -> ustr.
(** The TOC fallbacks (discovered endpoint, then the guessed API); their
    failures are caught in [getBookDetail]. *)
Variable fetchToc : ustr -> option ustr.
(** [fetchWithRetry(searchUrl)] followed by [parseBooks] and the metrics'
    [totalItems]. *)
Variable fetchSearch : ustr -> Z -> Try (list Book * Z).
(** `Buffer.from(JSON.stringify({...})).toString('base64')`. *)
Variable encodeKey : ustr -> Z -> bool -> ustr.
(** [buildSearchUrl]: the query string built by [URLSearchParams]. *)
Variable buildSearchUrl : ustr -> Z -> ustr.

(** The part of [getBookDetail] after the cache check: fetch the detail
    page, enrich the base book, apply the TOC fallbacks, cache the result. *)
Definition fetchAndEnrich (tocApiFirst : bool) (bookId : ustr) (s : Svc)
    : (SvcError + Book) * Svc :=
  let cacheKey := detail_prefix ++ bookId in
  let detailUrl := buildDetailUrl bookId in
  let s := emit (OFetch detailUrl) s in
  match fetchDetail detailUrl with
  | inl e => (inl (NetworkError e), s)
  | inr dp =>
      let baseBook := create (baseBookInput bookId detailUrl) in
      match fst (enrichBook coverUrlFor (dp_extractors dp) baseBook fresh_results) with
      | inl pe => (inl (DetailParseError pe), s)
      | inr enrichedBook =>
          let finalBook := if tocApiFirst then with_toc enrichedBook (fetchToc bookId)
                           else enrichedBook in
          let finalBook := if toc_missing finalBook then with_toc finalBook (fetchToc bookId)
                           else finalBook in
          (inr finalBook, cache_set cacheKey finalBook s)
      end
  end.

(** [getBookDetail(bookId, timeout, { tocApiFirst })]; returns the book of
    the [BookDetailResult]. *)
Definition getBookDetail (tocApiFirst : bool) (bookId : ustr) (s : Svc)
    : (SvcError + Book) * Svc :=
  let cacheKey := detail_prefix ++ bookId in
  let (hit, s) := cache_has cacheKey s in
  if hit then
    let s := emit (OGet cacheKey) s in
    match lookup cacheKey (store s) with
    | Some cachedBook =>
        if hasEnriched cachedBook then (inr cachedBook, s)
        else fetchAndEnrich tocApiFirst bookId s
    | None => fetchAndEnrich tocApiFirst bookId s
    end
  else fetchAndEnrich tocApiFirst bookId s.

(** [enrichBooksWithDetails]: a failed detail keeps the listing book. *)
Fixpoint enrichBooksWithDetails (books : list Book) (s : Svc) : list Book * Svc :=
  match books with
  | [] => ([], s)
  | b :: r =>
      let (res, s) := getBookDetail false (id b) s in
      let b' := match res with inr d => d | inl _ => b end in
      let (bs, s) := enrichBooksWithDetails r s in
      (b' :: bs, s)
  end.

Record SearchOptions := {
  maxResults : Z;
  enableDetailFetch : bool;
  cacheResults : bool
}.

(** [validateSearchQuery]. *)
Definition validQuery (q : ustr) : bool :=
  let n := JS.length (trim q) in (2 <=? n)%nat && (n <=? 100)%nat.

(** [buildSearchCacheKey]. *)
Definition buildSearchCacheKey (q : ustr) (o : SearchOptions) : ustr :=
  search_prefix ++ encodeKey q (maxResults o) (enableDetailFetch o).

(** [getCachedSearchResult]: the stub result. *)
Definition getCachedSearchResult : SearchResult :=
  {| sr_books := []; sr_totalFound := 0 |}.

(** [cacheSearchResult]: its body is empty. *)
Definition cacheSearchResult (k : ustr) (r : SearchResult) (s : Svc) : Svc := s.

(** [searchBooks(query, options)]. *)
Definition searchBooks (query : ustr) (o : SearchOptions) (s : Svc)
    : (SvcError + SearchResult) * Svc :=
  if negb (validQuery query) then (inl (SearchError "invalid query"), s) else
  let cacheKey := buildSearchCacheKey query o in
  let (hit, s) := if cacheResults o then cache_has cacheKey s else (false, s) in
  if hit then (inr getCachedSearchResult, s) else
  let s := emit (OFetch (buildSearchUrl query (maxResults o))) s in
  match fetchSearch query (maxResults o) with
  | inl e => (inl (NetworkError e), s)
  | inr (books, totalItems) =>
      let (enriched, s) := if enableDetailFetch o then enrichBooksWithDetails books s
                           else (books, s) in
      let result := {| sr_books := enriched; sr_totalFound := totalItems |} in
      let s := if cacheResults o then cacheSearchResult cacheKey result s else s in
      (inr result, s)
  end.

End Service.

End Service.

(* ------------------------------------------------------------------ *)
(** * Search listing (SearchResultParser.parseBooks) *)
(* ------------------------------------------------------------------ *)

Module Listing.
Import JS Books.

(** A listing element, through what the parser reads from it. *)
Record Item := {
  it_node : nat;                    (* element identity *)
  it_visible : bool;                (* [isVisible] *)
  it_hasDetailLink : bool;          (* `a[href*="detail"]` inside *)
  it_text : ustr;                   (* [extractText(item)] *)
  it_className : ustr;              (* [className], lower-cased *)
  it_textContentLength : nat;       (* [textContent.length] *)
  it_title : ustr;                  (* [extractTitle(item)] *)
  it_linkBookId : option ustr;      (* [extractUrlAndId]: the id of a detail link *)
  it_authors : list ustr;           (* [extractAuthors(item)] *)
  it_publisher : ustr;
  it_publishDate : option ustr;
  it_bid : ustr;                    (* `data-kbbfn-bid` of the lazy cover image *)
  it_cover : ustr                   (* [extractCoverImage(item)] *)
}.

(** A search-results document: the elements the structural selectors
    ([SEARCH_RESULT_ITEMS]) match, and for each [BOOK_DETAIL_LINKS] link
    its ancestors, parent first. *)
Record SearchPage := {
  sp_items : list Item;
  sp_links : list (list Item)
}.

(** [KEYWORDS.PACKAGE_PRODUCTS]: 패키지, 세트, 전집, 시리즈, 묶음. *)
Definition PACKAGE_PRODUCTS : list ustr :=
  [[54056; 53412; 51648]; [49464; 53944]; [51204; 51665];
   [49884; 47532; 51592]; [47926; 51020]].

Definition isPackageProduct (text : ustr) : bool :=
  existsb (fun kw => includes text kw) PACKAGE_PRODUCTS.

(** [filterValidItems]. *)
Definition filterValidItems (items : list Item) : list Item :=
  filter (fun it => it_visible it && it_hasDetailLink it
                    && (10 <=? JS.length (it_text it))%nat
                    && negb (isPackageProduct (it_text it))) items.

Definition ascii_ustr (s : string) : ustr :=
  map (fun a => Z.of_nat (Ascii.nat_of_ascii a)) (list_ascii_of_string s).

Definition containerPatterns : list ustr :=
  map ascii_ustr ["prod"; "product"; "book"; "item"; "result"; "search";
                  "list"; "card"; "box"; "wrap"; "container"]%string.

(** The condition of [findBookContainer]. *)
Definition isBookContainer (el : Item) : bool :=
  existsb (fun p => includes (it_className el) p) containerPatterns
  && (20 <? it_textContentLength el)%nat && (it_textContentLength el <? 1000)%nat.

(** [findAncestor(link, cond, maxDepth)] over the link's ancestors. *)
Fixpoint findAncestor (cond : Item -> bool) (ancestors : list Item) (maxDepth : nat)
    : option Item :=
  match ancestors, maxDepth with
  | a :: r, S d => if cond a then Some a else findAncestor cond r d
  | _, _ => None
  end.

Definition findBookContainer (ancestors : list Item) : option Item :=
  findAncestor isBookContainer ancestors 5.

(** [findItemsByLinks]: distinct containers, at most 20. *)
Definition findItemsByLinks (links : list (list Item)) : list Item :=
  let fix go (links : list (list Item)) (processed : list nat) (items : list Item) :=
    match links with
    | [] => items
    | l :: r =>
        match findBookContainer l with
        | Some c =>
            if existsb (Nat.eqb (it_node c)) processed then go r processed items
            else let items := items ++ [c] in
                 if (20 <=? List.length items)%nat then items
                 else go r (it_node c :: processed) items
        | None => go r processed items
        end
    end in
  go links [] [].

(** [findResultItems]. *)
Definition findResultItems (p : SearchPage) : list Item :=
  match sp_items p with
  | [] => findItemsByLinks (sp_links p)
  | items => filterValidItems items
  end.

(** `/^\d{12,13}$/` *)
Definition isBarcode (s : ustr) : bool :=
  forallb is_digit s && ((List.length s =? 12)%nat || (List.length s =? 13)%nat).

Definition MAX_SEARCH_RESULTS : Z := 50.

Section Listing.

(** [TextUtils.cleanTitle], [UrlUtils.buildCoverImageUrl] and
    [UrlUtils.buildDetailPageUrl]. *)
Variable cleanTitle : ustr -> ustr.
Variable buildCoverImageUrl : ustr -> ustr.
Variable buildDetailPageUrl : ustr -> ustr.
(** The `temp_${Date.now()}_...` id of an item with no detail-link id. *)
Variable tempId : ustr.

(** [parseItem]. *)
Definition parseItem (item : Item) : option Book :=
  let '(url, bookId) := match it_linkBookId item with
                        | Some bid => (buildDetailPageUrl bid, bid)
                        | None => ([], tempId)
                        end in
  let title := it_title item in
  let isbn := if nonempty (it_bid item) && isBarcode (it_bid item) then it_bid item else [] in
  let coverImageUrl := it_cover item in
  if (JS.length title <? 2)%nat then None else
  if negb (nonempty bookId) then None else
  let coverImageUrl :=
    if negb (nonempty coverImageUrl) || (JS.length coverImageUrl <? 10)%nat then
      if nonempty isbn then buildCoverImageUrl isbn else buildCoverImageUrl bookId
    else coverImageUrl in
  Some (create {| c_id := bookId;
                  c_title := cleanTitle title;
                  c_authors := match it_authors item with
                               | [] => [[51200; 51088; 48120; 49345]] (* 저자미상 *)
                               | a => a end;
                  c_publisher := match it_publisher item with
                                 | [] => [52636; 54032; 49324; 48120; 49345] (* 출판사미상 *)
                                 | p => p end;
                  c_subtitle := None;
                  c_publishDate := it_publishDate item;
                  c_isbn := if nonempty isbn then Some isbn else None;
                  c_pages := None;
                  c_language := Some ko;
                  c_description := None;
                  c_tableOfContents := None;
                  c_categories := None;
                  c_rating := None;
                  c_coverImageUrl := Some coverImageUrl;
                  c_detailPageUrl := Some url |}).

(** [parseBatch]: stops once [remainingSlots] books are collected. *)
Fixpoint parseBatch (items : list Item) (remainingSlots : Z) (books : list Book) : list Book :=
  match items with
  | [] => books
  | it :: r =>
      if (Z.of_nat (List.length books) <? remainingSlots)%Z then
        parseBatch r remainingSlots
          (match parseItem it with Some b => books ++ [b] | None => books end)
      else books
  end.

(** [parseItems]: batches of 10. *)
Fixpoint parseItems_from (items : list Item) (fuel : nat) (maxResults : Z) (books : list Book)
    : list Book :=
  match fuel with
  | O => books
  | S f =>
      match items with
      | [] => books
      | _ =>
          if (Z.of_nat (List.length books) <? maxResults)%Z then
            let batch := firstn 10 items in
            let batchBooks := parseBatch batch (maxResults - Z.of_nat (List.length books)) [] in
            parseItems_from (skipn 10 items) f maxResults (books ++ batchBooks)
          else books
      end
  end.

Definition parseItems (items : list Item) (maxResults : Z) : list Book :=
  parseItems_from items (List.length items) maxResults [].

(** [parseBooks]: a [ParseError] when no item is found. *)
Definition parseBooks (p : SearchPage) (maxResults : Z) : string + list Book :=
  match findResultItems p with
  | [] => inl "ParseError: no result items"%string
  | items => inr (parseItems items maxResults)
  end.

End Listing.

End Listing.

(* ------------------------------------------------------------------ *)
(** * MemoryCache: set and evictLeastRecentlyUsed *)
(* ------------------------------------------------------------------ *)

Module Cache.
Import JS.

Record CacheEntry (T : Type) := {
  value : T;
  timestamp : Q;
  lastAccess : Q;
  accessCount : Q
}.
Arguments value {T}. Arguments timestamp {T}.
Arguments lastAccess {T}. Arguments accessCount {T}.

(** The [Map] in insertion order; [Map.set] of a new key appends. *)
Definition MemoryCache (T : Type) := list (ustr * CacheEntry T).

Definition key_eqb (a b : ustr) : bool := if list_eq_dec Z.eq_dec a b then true else false.

Definition has {T} (key : ustr) (c : MemoryCache T) : bool :=
  existsb (fun p => key_eqb (fst p) key) c.

Definition delete {T} (key : ustr) (c : MemoryCache T) : MemoryCache T :=
  filter (fun p => negb (key_eqb (fst p) key)) c.

Section Cache.
Context {T : Type}.

(** [calculateEvictionScore] at time [now]. *)
Definition calculateEvictionScore (now : Q) (e : CacheEntry T) : Q :=
  (now - lastAccess e) * (7 # 10) - accessCount e * 1000 * (3 # 10).

(** [evictLeastRecentlyUsed] at time [now]: the scan starts from the key
    `''` and the bound [now]; an entry replaces the candidate when its
    score is strictly lower; the candidate is deleted if its key is
    non-empty. *)
Definition evictLeastRecentlyUsed (now : Q) (c : MemoryCache T) : MemoryCache T :=
  let '(lruKey, _) :=
    fold_left (fun (acc : ustr * Q) (p : ustr * CacheEntry T) =>
                 let score := calculateEvictionScore now (snd p) in
                 if negb (Qle_bool (snd acc) score) then (fst p, score) else acc)
              c ([], now) in
  if Books.nonempty lruKey then delete lruKey c else c.

Definition touch (now : Q) (v : T) (p : ustr * CacheEntry T) : ustr * CacheEntry T :=
  (fst p, {| value := v; timestamp := now; lastAccess := now;
             accessCount := accessCount (snd p) |}).

(** [set(key, value)] at time [now] on a cache of capacity [maxSize]. *)
Definition set (maxSize : Z) (now : Q) (key : ustr) (v : T) (c : MemoryCache T)
    : MemoryCache T :=
  if has key c then map (fun p => if key_eqb (fst p) key then touch now v p else p) c
  else
    let c := if (maxSize <=? Z.of_nat (List.length c))%Z then evictLeastRecentlyUsed now c
             else c in
    c ++ [(key, {| value := v; timestamp := now; lastAccess := now; accessCount := 1 |})].

End Cache.

End Cache.

(* ------------------------------------------------------------------ *)
(** * KyobobookClient: rate limiting and User-Agent rotation;
      BookService.fetchWithRetry on top of [get] *)
(* ------------------------------------------------------------------ *)

Module Client.
Import Http.

(** `1000 * Math.pow(2, attempt - 1)`: the backoff slept after a failed
    attempt (both retry loops use it). *)
Definition backoff (attempt : nat) : Z := 1000 * 2 ^ (Z.of_nat attempt - 1).

(** [minRequestInterval]. *)
Definition minRequestInterval : Z := 1000.

(** [enforceRateLimit] at clock [now], with the client's
    [lastRequestTime]: the time it waits. *)
Definition enforceRateLimit (lastRequestTime now : Z) : Z :=
  let timeSinceLastRequest := now - lastRequestTime in
  if timeSinceLastRequest <? minRequestInterval
  then minRequestInterval - timeSinceLastRequest else 0.

(** Sequential requests through one client. Each call is the clock when
    [request] runs [enforceRateLimit], and how much later than
    `now + waitTime` the clock reads when [lastRequestTime = Date.now()]
    runs (a timer never fires early). The result is the
    [lastRequestTime] each request sets: the time it goes on to
    [executeWithRetry]. *)
Fixpoint rateLimitedTimes (lastRequestTime : Z) (calls : list (Z * Z)) : list Z :=
  match calls with
  | [] => []
  | (now, late) :: r =>
      let t := now + enforceRateLimit lastRequestTime now + late in
      t :: rateLimitedTimes t r
  end.

(** The three [userAgents]. *)
Definition userAgents : list string :=
  [ "Mozilla/5.0 (Macintosh; Intel Mac OS X 10_15_7) AppleWebKit/537.36 (KHTML, like Gecko) Chrome/120.0.0.0 Safari/537.36";
    "Mozilla/5.0 (Windows NT 10.0; Win64; x64) AppleWebKit/537.36 (KHTML, like Gecko) Chrome/120.0.0.0 Safari/537.36";
    "Mozilla/5.0 (X11; Linux x86_64) AppleWebKit/537.36 (KHTML, like Gecko) Chrome/120.0.0.0 Safari/537.36" ]%string.

(** [getNextUserAgent]: the agent at [userAgentIndex] and the next index. *)
Definition getNextUserAgent (userAgentIndex : nat) : string * nat :=
  (nth userAgentIndex userAgents EmptyString,
   Nat.modulo (S userAgentIndex) (List.length userAgents)).

(** `options.userAgent || ...`: an absent or empty agent is falsy. *)
Definition truthy_ua (o : option string) : option string :=
  match o with
  | Some u => if String.eqb u EmptyString then None else Some u
  | None => None
  end.

(** The constructor's [baseOptions.userAgent], and the index after it
    (the index starts at 0). *)
Definition construct_ua (ctor_ua : option string) : string * nat :=
  match truthy_ua ctor_ua with
  | Some u => (u, 0%nat)
  | None => getNextUserAgent 0
  end.

(** The agent [mergeOptions] puts in a request's options (the one
    [executeRequest] sends as `User-Agent`), and the next index. *)
Definition merged_userAgent (call_ua : option string) (userAgentIndex : nat) : string * nat :=
  match truthy_ua call_ua with
  | Some u => (u, userAgentIndex)
  | None => getNextUserAgent userAgentIndex
  end.

(** The agents sent by a sequence of requests, given each call's
    [options.userAgent]. *)
Fixpoint request_agents (userAgentIndex : nat) (calls : list (option string)) : list string :=
  match calls with
  | [] => []
  | c :: r =>
      let (ua, idx) := merged_userAgent c userAgentIndex in ua :: request_agents idx r
  end.

(** A client built with [ctor_ua], then the requests [calls]. *)
Definition client_agents (ctor_ua : option string) (calls : list (option string)) : list string :=
  request_agents (snd (construct_ua ctor_ua)) calls.

(** The failures [BookService.fetchWithRetry] catches: the [NetworkError]
    of [get] (wrapping its last attempt's error) and its own empty-body
    error. *)
Inductive FetchErr :=
| GetFailed (last : option ReqErr)
| EmptyBody.                 (* '빈 응답을 받았습니다' *)

(** `!html || html.trim().length === 0`, the body's characters read as
    code units. *)
Definition blank (html : string) : bool :=
  forallb (fun a => JS.is_space (Z.of_nat (Ascii.nat_of_ascii a))) (list_ascii_of_string html).

(** A run of [fetchWithRetry]: its outcome ([inl lastError] is the final
    [NetworkError] wrapping the last error), the [get] runs it made, and
    the backoff delays it slept between them. *)
Record FetchRun := {
  fr_outcome : option FetchErr + string;
  fr_runs : list RetryRun;
  fr_delays : list Z
}.

(** `for (attempt = 1; attempt <= maxRetries; attempt++)`: [call k] is
    the [get] run of attempt [k]; the loop breaks after a failure when
    `attempt === maxRetries`, and sleeps [backoff attempt] otherwise. *)
Fixpoint fetch_from (call : nat -> RetryRun) (maxRetries attempt fuel : nat)
    (lastError : option FetchErr) : FetchRun :=
  match fuel with
  | O => {| fr_outcome := inl lastError; fr_runs := []; fr_delays := [] |}
  | S f =>
      let run := call attempt in
      let res := match run_outcome run with
                 | inl e => inl (GetFailed e)
                 | inr (_, html) => if blank html then inl EmptyBody else inr html
                 end in
      match res with
      | inr html => {| fr_outcome := inr html; fr_runs := [run]; fr_delays := [] |}
      | inl e =>
          if Nat.eqb attempt maxRetries
          then {| fr_outcome := inl (Some e); fr_runs := [run]; fr_delays := [] |}
          else let rest := fetch_from call maxRetries (S attempt) f (Some e) in
               {| fr_outcome := fr_outcome rest; fr_runs := run :: fr_runs rest;
                  fr_delays := backoff attempt :: fr_delays rest |}
      end
  end.

Definition fetchWithRetry (call : nat -> RetryRun) (maxRetries : nat) : FetchRun :=
  fetch_from call maxRetries 1 maxRetries None.

(** [BookService.fetchWithRetry(url, timeout)] (three attempts) on a
    client whose constructor got [ctor_retries]: each attempt is one
    `httpClient.get(url, { timeout })`, whose options carry no retry
    count. [transport i k] is the transport's answer to attempt [k] of
    the [i]-th [get]. *)
Definition serviceFetch (ctor_retries : option nat) (transport : nat -> nat -> Outcome)
    : FetchRun :=
  fetchWithRetry (fun i => get ctor_retries None (transport i)) 3.

(** The transport attempts and the total time slept by a run. *)
Definition transport_attempts (fr : FetchRun) : nat :=
  fold_right (fun r n => (List.length (run_attempts r) + n)%nat) O (fr_runs fr).

Definition total_sleep (fr : FetchRun) : Z :=
  fold_right Z.add 0 (flat_map run_delays (fr_runs fr)) + fold_right Z.add 0 (fr_delays fr).

End Client.

(* ------------------------------------------------------------------ *)
(** * TextUtils: clean, cleanAuthor, parseAuthors, parseCategories,
      truncate, toSafeFileName (selectors.ts) *)
(* ------------------------------------------------------------------ *)

Module Text.
Import JS Regex.

Definition ustr_eqb (a b : ustr) : bool :=
  if list_eq_dec Z.eq_dec a b then true else false.

(** [TextUtils.clean]: `\s+` becomes one space, `\n+` one newline, then
    [trim]; a falsy text gives the empty string. *)
Definition clean (text : ustr) : ustr :=
  match text with
  | [] => []
  | _ => trim (replace_all (Plus (ceqb 10)) [10] (replace_all (Plus is_space) [32] text))
  end.

(** The parenthesised part: a run of white space, an opening parenthesis,
    anything but a closing one, the closing one, a run of white space. *)
Definition paren_re : re :=
  Seq (Star is_space) (Seq (Chr (ceqb 40))
    (Seq (Star (fun c => negb (ceqb c 41))) (Seq (Chr (ceqb 41)) (Star is_space)))).

(** The role words 저, 편, 역, 그림, 지음, 옮김, 감수 between runs of white
    space, in this order of alternatives. *)
Definition role_re : re :=
  Seq (Star is_space)
    (Seq (Group (Any [Str [51200]; Str [54200]; Str [50669]; Str [44536; 47548];
                      Str [51648; 51020]; Str [50734; 44608]; Str [44048; 49688]]))
         (Star is_space)).

(** [TextUtils.cleanAuthor]. *)
Definition cleanAuthor (author : ustr) : ustr :=
  match author with
  | [] => []
  | _ => trim (replace_all role_re [] (replace_all paren_re [] (clean author)))
  end.

(** [s.split(re)] where [re] matches exactly one character of the class
    [p]: every such character separates two pieces. *)
Fixpoint split_class (p : Z -> bool) (s : ustr) : list ustr :=
  match s with
  | [] => [[]]
  | d :: r =>
      if p d then [] :: split_class p r
      else match split_class p r with
           | x :: xs => (d :: x) :: xs
           | [] => [[d]]
           end
  end.

(** The separators of [parseAuthors]: comma, semicolon, vertical bar and
    the middle dot (listed twice in the class). *)
Definition is_author_sep (c : Z) : bool :=
  ceqb c 44 || ceqb c 59 || ceqb c 124 || ceqb c 183.

(** [TextUtils.parseAuthors]. *)
Definition parseAuthors (authorsString : ustr) : list ustr :=
  match authorsString with
  | [] => []
  | _ => firstn 5 (filter (fun a => (0 <? JS.length a)%nat && (JS.length a <? 50)%nat)
                          (map cleanAuthor (split_class is_author_sep authorsString)))
  end.

(** The separators of [parseCategories]: the greater-than sign (listed
    twice in the class), the right guillemet and the single right angle
    quotation mark. *)
Definition is_category_sep (c : Z) : bool := ceqb c 62 || ceqb c 187 || ceqb c 8250.

(** 홈, 전체, 도서 *)
Definition hom : ustr := [54856].
Definition jeonche : ustr := [51204; 52404].
Definition doseo : ustr := [46020; 49436].

(** [TextUtils.parseCategories]. *)
Definition parseCategories (categoriesString : ustr) : list ustr :=
  match categoriesString with
  | [] => []
  | _ => firstn 10 (filter (fun c => (0 <? JS.length c)%nat && (JS.length c <? 50)%nat
                                     && negb (ustr_eqb c hom) && negb (ustr_eqb c jeonche)
                                     && negb (ustr_eqb c doseo))
                           (map clean (split_class is_category_sep categoriesString)))
  end.

(** [String.prototype.slice(0, end)], the string as its UTF-16 code
    units: a negative end counts from the end of the string. *)
Definition slice0 (s : list Z) (e : Z) : list Z :=
  let n := Z.of_nat (List.length s) in
  firstn (Z.to_nat (if e <? 0 then Z.max (n + e) 0 else Z.min e n)) s.

(** The default suffix `...`. *)
Definition ellipsis : list Z := [46; 46; 46].

(** [TextUtils.truncate(text, maxLength, suffix)], the strings as their
    UTF-16 code units and [maxLength] an integer. *)
Definition truncate (text : list Z) (maxLength : Z) (suffix : list Z) : list Z :=
  match text with
  | [] => text
  | _ =>
      if Z.of_nat (List.length text) <=? maxLength then text
      else slice0 text (maxLength - Z.of_nat (List.length suffix)) ++ suffix
  end.

(** `untitled` *)
Definition untitled : list Z := [117; 110; 116; 105; 116; 108; 101; 100].

(** The class of [toSafeFileName]'s first replacement: backslash, slash,
    colon, star, question mark, double quote, less-than, greater-than and
    vertical bar. *)
Definition is_unsafe (c : Z) : bool :=
  ceqb c 92 || ceqb c 47 || ceqb c 58 || ceqb c 42 || ceqb c 63 || ceqb c 34
  || ceqb c 60 || ceqb c 62 || ceqb c 124.

(** Two or more underscores, and the alternation of a leading and a
    trailing run of underscores. *)
Definition underscores2_re : re := Seq (Chr (ceqb 95)) (Plus (ceqb 95)).
Definition edge_underscores_re : re :=
  Alt (Seq Bol (Plus (ceqb 95))) (Seq (Plus (ceqb 95)) Eol).

(** [TextUtils.toSafeFileName], the string as its UTF-16 code units (the
    regular expressions have no u flag and [slice] counts code units). *)
Definition toSafeFileName (text : list Z) : list Z :=
  match text with
  | [] => untitled
  | _ =>
      let s := replace_all (Chr is_unsafe) [95] (clean text) in
      let s := replace_all (Plus is_space) [95] s in
      let s := replace_all underscores2_re [95] s in
      let s := replace_all edge_underscores_re [] s in
      slice0 s 100
  end.

End Text.

(* ------------------------------------------------------------------ *)
(** * MemoryCache: reads, expiry, cleanup; BookMemoryCache *)
(* ------------------------------------------------------------------ *)

Module CacheOps.
Import JS Cache.

Section Ops.
Context {T : Type}.

(** [this.cache.get(key)]: the entry stored under [key]. *)
Fixpoint find (key : ustr) (c : MemoryCache T) : option (CacheEntry T) :=
  match c with
  | [] => None
  | p :: r => if key_eqb (fst p) key then Some (snd p) else find key r
  end.

(** [isExpired] at time [now], for a cache whose lifetime is [ttl]:
    `Date.now() - entry.timestamp > this.ttl`. *)
Definition isExpired (ttl now : Q) (e : CacheEntry T) : bool :=
  negb (Qle_bool (now - timestamp e) ttl).

(** A hit: `entry.lastAccess = Date.now(); entry.accessCount++`. *)
Definition hit (now : Q) (e : CacheEntry T) : CacheEntry T :=
  {| value := value e; timestamp := timestamp e; lastAccess := now;
     accessCount := accessCount e + 1 |}.

Definition update (key : ustr) (f : CacheEntry T -> CacheEntry T) (c : MemoryCache T)
    : MemoryCache T :=
  map (fun p => if key_eqb (fst p) key then (fst p, f (snd p)) else p) c.

(** [get(key)] at time [now]: the value returned and the cache after the
    call (an expired entry is deleted; a hit updates the entry in place). *)
Definition get (ttl now : Q) (key : ustr) (c : MemoryCache T) : option T * MemoryCache T :=
  match find key c with
  | None => (None, c)
  | Some e =>
      if isExpired ttl now e then (None, delete key c)
      else (Some (value e), update key (hit now) c)
  end.

(** [has(key)] at time [now]; like [get], it deletes an expired entry. *)
Definition has_at (ttl now : Q) (key : ustr) (c : MemoryCache T) : bool * MemoryCache T :=
  match find key c with
  | None => (false, c)
  | Some e => if isExpired ttl now e then (false, delete key c) else (true, c)
  end.

(** [cleanup] at time [now]: every expired entry is deleted while the map
    is iterated (deleting the current entry of a [Map] iteration does not
    skip the others). *)
Definition cleanup (ttl now : Q) (c : MemoryCache T) : MemoryCache T :=
  filter (fun p => negb (isExpired ttl now (snd p))) c.

(** [size()] and [keys()]. *)
Definition size (c : MemoryCache T) : nat := List.length c.
Definition keys (c : MemoryCache T) : list ustr := map fst c.

End Ops.

(** [BookMemoryCache.buildDetailCacheKey]: `detail:${bookId}`. *)
Definition buildDetailCacheKey (bookId : ustr) : ustr := Service.detail_prefix ++ bookId.

(** [cacheBookDetail], [getBookDetail] and [invalidateBook] of a
    [BookMemoryCache] with capacity [maxSize] and lifetime [ttl]. *)
Definition cacheBookDetail (maxSize : Z) (now : Q) (bookId : ustr) (book : Books.Book)
    (c : MemoryCache Books.Book) : MemoryCache Books.Book :=
  set maxSize now (buildDetailCacheKey bookId) book c.

Definition getBookDetail (ttl now : Q) (bookId : ustr) (c : MemoryCache Books.Book)
    : option Books.Book * MemoryCache Books.Book :=
  get ttl now (buildDetailCacheKey bookId) c.

Definition invalidateBook (bookId : ustr) (c : MemoryCache Books.Book)
    : MemoryCache Books.Book :=
  delete (buildDetailCacheKey bookId) c.

(** [cacheSearchResult]: every book is stored under its detail key, in
    order. *)
Definition cacheSearchResult (maxSize : Z) (now : Q) (books : list Books.Book)
    (c : MemoryCache Books.Book) : MemoryCache Books.Book :=
  fold_left (fun c b => set maxSize now (buildDetailCacheKey (Books.id b)) b c) books c.

End CacheOps.

(* ================================================================== *)
(** * Properties *)
(* ================================================================== *)

Module HttpProofs.
Import Http.

(** Every attempt fails: the loop issues attempts [1 .. retries]. *)
Lemma retry_from_all_fail (tr : nat -> Outcome) retries :
  (forall k, exists e, executeRequest (tr k) = inl e) ->
  forall fuel attempt last,
    run_attempts (retry_from tr retries attempt fuel last) = seq attempt fuel.
Proof.
  intros Hfail fuel; induction fuel as [|f IH]; intros attempt last; simpl.
  - reflexivity.
  - destruct (Hfail attempt) as [e He]; rewrite He; simpl. now rewrite IH.
Qed.

Lemma http_4xx_is_error (s : Z) (t : string) :
  400 <= s < 500 -> executeRequest (Resp s t) = inl (ErrHttp s).
Proof.
  intros H; simpl.
  replace (s <? 200) with false by (symmetry; apply Z.ltb_ge; lia).
  replace (300 <=? s) with true by (symmetry; apply Z.leb_le; lia).
  reflexivity.
Qed.

(** C1 (code_bug): with the default attempt count (3), a transport that
    always answers HTTP 404 is tried three times, with backoff delays of
    1s and 2s, before [get] fails; a 4xx status does not stop the loop. *)
Theorem get_retries_http_404 :
  let run := get None None (always (Resp 404 "Not Found"%string)) in
  run_attempts run = [1; 2; 3]%nat /\ run_delays run = [1000; 2000] /\
  run_outcome run = inl (Some (ErrHttp 404)).
Proof. vm_compute. repeat split. Qed.

(** More generally: for every status in [400,500) the number of attempts
    is the configured count. *)
Lemma get_4xx_attempts (s : Z) (t : string) ctor call :
  400 <= s < 500 ->
  List.length (run_attempts (get ctor call (always (Resp s t)))) =
    merged_retries ctor call.
Proof.
  intros H. unfold get, executeWithRetry.
  rewrite (retry_from_all_fail (always (Resp s t))).
  - apply length_seq.
  - intros k. exists (ErrHttp s). now apply http_4xx_is_error.
Qed.

End HttpProofs.

Module TocProofs.
Import JS Regex Toc TocDom.

(** "1장 서론<br>1.1 배경" *)
Definition toc_sibling_html : ustr :=
  [49; 51109; 32; 49436; 47200; 60; 98; 114; 62; 49; 46; 49; 32; 48176; 44221].

Definition toc_page : list Heading :=
  [ {| h_text := mokcha;
       h_next := Some {| sib_items := []; sib_box := None; sib_overflow := None;
                         sib_html := toc_sibling_html |} |} ].

(** "1장 서론\n  1.1 배경", the spec's expected value. *)
Definition toc_expected : ustr :=
  [49; 51109; 32; 49436; 47200; 10; 32; 32; 49; 46; 49; 32; 48176; 44221].

(** "1장 서론\n1.1 배경", what the code produces. *)
Definition toc_produced : ustr :=
  [49; 51109; 32; 49436; 47200; 10; 49; 46; 49; 32; 48176; 44221].

(** The chapter pattern's alternative [\d+\.] matches "1.1 배경", so the
    subheading branch for [\d+\.\d+] is never reached. *)
Lemma subheading_line_matches_chapter :
  test chapter_re [49; 46; 49; 32; 48176; 44221] = true.
Proof. vm_compute. reflexivity. Qed.

(** C5 (code_bug): for the heading "목차" followed by the sibling
    <div>1장 서론<br>1.1 배경</div>, the extracted table of contents is
    "1장 서론\n1.1 배경": the subheading line is not indented, so the
    result differs from "1장 서론\n  1.1 배경". *)
Theorem toc_subheading_not_indented (rest : option ustr) :
  extractTableOfContents toc_page rest = Some toc_produced /\
  toc_produced <> toc_expected.
Proof.
  split.
  - vm_compute. reflexivity.
  - vm_compute. congruence.
Qed.

End TocProofs.

Module RatingProofs.
Import JS Regex Rating.

Lemma mt_seq total r1 r2 s g k :
  mt total (Seq r1 r2) s g k = mt total r1 s g (fun s' g' => mt total r2 s' g' k).
Proof. reflexivity. Qed.

Lemma mt_group total r s g k :
  mt total (Group r) s g k =
  mt total r s g (fun s' _ => k s' (Some (firstn (List.length s - List.length s') s))).
Proof. reflexivity. Qed.

Lemma mt_chr_cons total p c s g k :
  mt total (Chr p) (c :: s) g k = if p c then k s g else None.
Proof. reflexivity. Qed.

(** A continuation that never fails. *)
Definition never_fails (k : ustr -> option ustr -> option res) : Prop :=
  forall s g, k s g <> None.

Lemma mt_star_greedy total p s g k :
  never_fails k -> mt total (Star p) s g k = k (drop_while p s) g.
Proof.
  intros Hk; induction s as [|c r IH]; simpl; [reflexivity|].
  destruct (p c) eqn:Ep; [|reflexivity].
  simpl in IH; rewrite IH.
  destruct (k (drop_while p r) g) eqn:E; [reflexivity|].
  exfalso; exact (Hk _ _ E).
Qed.

Lemma mt_opt_chr total p s g k :
  never_fails k ->
  mt total (Opt (Chr p)) s g k =
  match s with c :: s' => if p c then k s' g else k s g | [] => k s g end.
Proof.
  intros Hk; destruct s as [|c r]; simpl; [reflexivity|].
  destruct (p c); [|reflexivity].
  destruct (k r g) eqn:E; [reflexivity|].
  exfalso; exact (Hk _ _ E).
Qed.

Definition k_final : ustr -> option ustr -> option res := fun s g => Some (s, g).

Definition rating_tail : re := Seq (Star is_space) (Opt (Chr (ceqb c_jeom))).

Lemma k_final_never_fails : never_fails k_final.
Proof. intros ? ? ?; discriminate. Qed.

Lemma opt_jeom_keeps_capture total s g :
  exists x, mt total (Opt (Chr (ceqb c_jeom))) s g k_final = Some (x, g).
Proof.
  rewrite mt_opt_chr by apply k_final_never_fails.
  destruct s as [|c r]; [eexists; reflexivity|].
  destruct (ceqb c_jeom c); eexists; reflexivity.
Qed.

(** The text after the capture ([\s*점?]) always matches and keeps the
    capture. *)
Lemma rating_tail_keeps_capture total s g :
  exists x, mt total rating_tail s g k_final = Some (x, g).
Proof.
  unfold rating_tail. rewrite mt_seq, mt_star_greedy.
  - apply opt_jeom_keeps_capture.
  - intros s' g' E. destruct (opt_jeom_keeps_capture total s' g') as [x Hx].
    congruence.
Qed.

Definition after_decimal (s : ustr) : ustr :=
  match drop_while is_digit s with
  | c :: r => if ceqb c c_dot then drop_while is_digit r else c :: r
  | [] => []
  end.

Lemma take_drop_while p s : take_while p s ++ drop_while p s = s.
Proof.
  induction s as [|c r IH]; simpl; [reflexivity|].
  destruct (p c); simpl; [now rewrite IH | reflexivity].
Qed.

Lemma drop_while_head p s c t : drop_while p s = c :: t -> p c = false.
Proof.
  induction s as [|d r IH]; simpl; [discriminate|].
  destruct (p d) eqn:E; [exact IH|]. intros H; inversion H; subst; exact E.
Qed.

Lemma decimal_prefix_after s : decimal_prefix s ++ after_decimal s = s.
Proof.
  unfold decimal_prefix, after_decimal.
  rewrite <- app_assoc.
  transitivity (take_while is_digit s ++ drop_while is_digit s);
    [f_equal | apply take_drop_while].
  destruct (drop_while is_digit s) as [|c r]; simpl; [reflexivity|].
  destruct (ceqb c c_dot); simpl; [|reflexivity].
  now rewrite take_drop_while.
Qed.

Lemma firstn_decimal s :
  firstn (List.length s - List.length (after_decimal s)) s = decimal_prefix s.
Proof.
  pose proof (decimal_prefix_after s) as H.
  remember (decimal_prefix s) as a. remember (after_decimal s) as b.
  rewrite <- H.
  rewrite length_app, Nat.add_sub, firstn_app, firstn_all, Nat.sub_diag.
  simpl. apply app_nil_r.
Qed.

(** At a digit the pattern matches, and its capture is the decimal that
    starts there. *)
Lemma match_at_digit total d r :
  is_digit d = true ->
  exists rest, match_at total ratingPattern (d :: r) =
               Some (rest, Some (decimal_prefix (d :: r))).
Proof.
  intros Hd. unfold match_at, ratingPattern, Plus.
  rewrite mt_seq, mt_group, mt_seq, mt_seq, mt_chr_cons, Hd.
  set (KG := fun (s' : ustr) (_ : option ustr) =>
               mt total rating_tail s'
                 (Some (firstn (List.length (d :: r) - List.length s') (d :: r))) k_final).
  assert (HKG : never_fails KG).
  { intros s g E. unfold KG in E.
    destruct (rating_tail_keeps_capture total s
      (Some (firstn (List.length (d :: r) - List.length s) (d :: r)))) as [x Hx].
    congruence. }
  assert (HKS : never_fails (fun s g => mt total (Star is_digit) s g KG)).
  { intros s g. rewrite mt_star_greedy by exact HKG. apply HKG. }
  assert (HKO : never_fails (fun s g =>
                  mt total (Seq (Opt (Chr (ceqb c_dot))) (Star is_digit)) s g KG)).
  { intros s g. rewrite mt_seq, mt_opt_chr by exact HKS.
    destruct s as [|c t]; [apply HKS|]. destruct (ceqb c_dot c); apply HKS. }
  rewrite mt_star_greedy by exact HKO.
  rewrite mt_seq, mt_opt_chr by exact HKS.
  assert (Hafter : forall s', s' = after_decimal (d :: r) ->
            exists rest, KG s' None = Some (rest, Some (decimal_prefix (d :: r)))).
  { intros s' ->. unfold KG. rewrite firstn_decimal.
    apply rating_tail_keeps_capture. }
  destruct (drop_while is_digit r) as [|c t] eqn:Edw.
  - rewrite mt_star_greedy by exact HKG. apply Hafter.
    unfold after_decimal. simpl. now rewrite Hd, Edw.
  - destruct (ceqb c_dot c) eqn:Ec.
    + rewrite mt_star_greedy by exact HKG. apply Hafter.
      unfold after_decimal. simpl. rewrite Hd, Edw.
      unfold ceqb in *. now rewrite Z.eqb_sym, Ec.
    + rewrite mt_star_greedy by exact HKG. apply Hafter.
      unfold after_decimal. simpl. rewrite Hd, Edw.
      unfold ceqb in *. rewrite Z.eqb_sym, Ec. simpl.
      now rewrite (drop_while_head _ _ _ _ Edw).
Qed.

Lemma match_at_non_digit total c r :
  is_digit c = false -> match_at total ratingPattern (c :: r) = None.
Proof.
  intros Hc. unfold match_at, ratingPattern, Plus.
  rewrite mt_seq, mt_group, mt_seq, mt_seq, mt_chr_cons, Hc. reflexivity.
Qed.

Lemma exec_from_first total pre s :
  match first_digit_suffix s with
  | [] => exec_from total ratingPattern pre s = None
  | s' => exists a rest,
            exec_from total ratingPattern pre s = Some (a, (rest, Some (decimal_prefix s')))
  end.
Proof.
  revert pre; induction s as [|c r IH]; intros pre.
  - reflexivity.
  - unfold first_digit_suffix; simpl.
    destruct (is_digit c) eqn:Hc; simpl.
    + destruct (match_at_digit total c r Hc) as [rest Hm].
      rewrite Hm. eexists _, rest. reflexivity.
    + rewrite match_at_non_digit by exact Hc. apply IH.
Qed.

(** [extractNumber] with the rating pattern reads the decimal that starts
    at the first digit of the text. *)
Lemma extractNumber_first_number text :
  extractNumber text ratingPattern =
  match first_digit_suffix text with
  | [] => None
  | s => parseFloat (decimal_prefix s)
  end.
Proof.
  destruct text as [|c r]; [reflexivity|].
  unfold extractNumber, exec.
  pose proof (exec_from_first (List.length (c :: r)) [] (c :: r)) as H.
  destruct (first_digit_suffix (c :: r)) as [|d t] eqn:E.
  - now rewrite H.
  - destruct H as (a & rest & ->).
    assert (Hd : is_digit d = true).
    { unfold first_digit_suffix in E. apply drop_while_head in E.
      now destruct (is_digit d). }
    unfold decimal_prefix; simpl; rewrite Hd. reflexivity.
Qed.

(** "4.5점" and "8.5점" *)
Definition text_4_5 : ustr := [52; 46; 53; 51216]%Z.
Definition text_8_5 : ustr := [56; 46; 53; 51216]%Z.

(** C7: rating extraction reads the first number of the text with the
    pattern [(\d+\.?\d* )\s*점?]; a value v <= 5 gives 2v, a value in
    (5,10] is kept, a larger value or no number gives no rating;
    "4.5점" gives 9 and "8.5점" gives 8.5. *)
Theorem extractRating_normalisation :
  (forall text, first_digit_suffix text = [] -> extractRating text = None) /\
  (forall text v,
     first_digit_suffix text <> [] ->
     parseFloat (decimal_prefix (first_digit_suffix text)) = Some v ->
     (v <= 5 -> extractRating text = Some (v * 2)) /\
     (5 < v <= 10 -> extractRating text = Some v) /\
     (10 < v -> extractRating text = None))%Q /\
  (exists r, extractRating text_4_5 = Some r /\ (r == 9)%Q) /\
  (exists r, extractRating text_8_5 = Some r /\ (r == 17 # 2)%Q).
Proof.
  split; [|split; [|split]].
  - intros text H. unfold extractRating.
    rewrite extractNumber_first_number, H. reflexivity.
  - intros text v Hne Hv.
    assert (Hx : extractNumber text ratingPattern = Some v).
    { rewrite extractNumber_first_number.
      destruct (first_digit_suffix text); [congruence | exact Hv]. }
    unfold extractRating; rewrite Hx.
    split; [|split].
    + intros H5. apply Qle_bool_iff in H5. now rewrite H5.
    + intros [H5 H10].
      assert (Qle_bool v 5 = false) as ->.
      { destruct (Qle_bool v 5) eqn:E; [|reflexivity].
        apply Qle_bool_iff in E. exfalso. apply (Qlt_not_le 5 v H5 E). }
      apply Qle_bool_iff in H10. now rewrite H10.
    + intros H10.
      assert (Qle_bool v 5 = false) as ->.
      { destruct (Qle_bool v 5) eqn:E; [|reflexivity].
        apply Qle_bool_iff in E. exfalso. apply (Qlt_not_le 10 v H10).
        apply (Qle_trans _ 5); [exact E | apply Qle_bool_iff; reflexivity]. }
      assert (Qle_bool v 10 = false) as ->.
      { destruct (Qle_bool v 10) eqn:E; [|reflexivity].
        apply Qle_bool_iff in E. exfalso. apply (Qlt_not_le 10 v H10 E). }
      reflexivity.
  - eexists; split; [vm_compute; reflexivity | vm_compute; reflexivity].
  - eexists; split; [vm_compute; reflexivity | vm_compute; reflexivity].
Qed.

End RatingProofs.

Module DetailProofs.
Import JS Regex Books Detail.

(** The error, if any, that the try block of each extractor catches. Only
    the JSON-LD block can fail after its extractor returned, in the ISBN
    normalisation. *)
Definition err_of {A} (t : Try A) : option Exn :=
  match t with inl e => Some e | inr _ => None end.

Definition caught (x : Extractors) (t : Tag) : option Exn :=
  match t with
  | TJsonLd => err_of (try_bind (x_jsonld x) (fun ld => merge_jsonld ld no_updates))
  | TIsbn => err_of (x_isbn x)
  | TDescription => err_of (x_description x)
  | TPublisher => err_of (x_publisher x)
  | TPublishDate => err_of (x_publishDate x)
  | TToc => err_of (x_toc x)
  | TCategories => err_of (x_categories x)
  | TRating => err_of (x_rating x)
  | TCover => err_of (x_cover x)
  end.

Definition all_tags : list Tag :=
  [TJsonLd; TIsbn; TDescription; TPublisher; TPublishDate; TToc; TCategories; TRating; TCover].

Definition caught_errors (x : Extractors) : list (Tag * Exn) :=
  flat_map (fun t => match caught x t with Some e => [(t, e)] | None => [] end) all_tags.

Lemma step_ran {A} t (o : Try A) m st :
  pr_ran (snd (step t o m st)) = pr_ran (snd st) ++ [t].
Proof.
  destruct st as [u pr]; unfold step.
  destruct (try_bind o (fun a => m a u)) as [e | [u' [|]]]; reflexivity.
Qed.

Lemma step_errors {A} t (o : Try A) m st :
  pr_errors (snd (step t o m st)) =
  pr_errors (snd st) ++
  match try_bind o (fun a => m a (fst st)) with inl e => [(t, e)] | inr _ => [] end.
Proof.
  destruct st as [u pr]; unfold step; simpl.
  destruct (try_bind o (fun a => m a u)) as [e | [u' [|]]]; simpl;
    rewrite ?app_nil_r; reflexivity.
Qed.

(** A merge that never raises: the block fails exactly when its extractor does. *)
Lemma try_bind_total {A B} (o : Try A) (m : A -> Try B) :
  (forall a, exists r, m a = inr r) ->
  match try_bind o m with inl e => [e] | inr _ => [] end =
  match err_of o with Some e => [e] | None => [] end.
Proof.
  intros H; destruct o as [e | a]; simpl; [reflexivity|].
  destruct (H a) as [r ->]; reflexivity.
Qed.

Lemma step_errors_total {A} t (o : Try A) m st :
  (forall a u, exists r, m a u = inr r) ->
  pr_errors (snd (step t o m st)) =
  pr_errors (snd st) ++ match err_of o with Some e => [(t, e)] | None => [] end.
Proof.
  intros H; rewrite step_errors.
  destruct o as [e | a]; simpl; [reflexivity|].
  destruct (H a (fst st)) as [r ->]; reflexivity.
Qed.

Lemma merge_str_total set mark :
  forall (a : option ustr) u, exists r, merge_str set mark a u = inr r.
Proof. intros [[|c s]|] u; eexists; reflexivity. Qed.

(** The updates after a block: either unchanged or what the merge returned. *)
Lemma step_fst {A} t (o : Try A) m st :
  fst (step t o m st) = fst st \/
  exists a found, o = inr a /\ m a (fst st) = inr (fst (step t o m st), found).
Proof.
  destruct st as [u pr]; unfold step; simpl.
  destruct o as [e | a]; simpl; [left; reflexivity|].
  destruct (m a u) as [e | [u' [|]]] eqn:E; simpl; eauto.
Qed.

Lemma merge_str_pages set mark a u r found :
  (forall v u, u_pages (set v u) = u_pages u) ->
  merge_str set mark a u = inr (r, found) -> u_pages r = u_pages u.
Proof.
  intros Hs; destruct a as [[|c s]|]; simpl; intros E; inversion E; subst; auto.
Qed.

Lemma merge_jsonld_pages ld u r found :
  merge_jsonld ld u = inr (r, found) -> u_pages r = u_pages u.
Proof.
  unfold merge_jsonld; destruct ld as [l|]; simpl; [|intros E; inversion E; reflexivity].
  destruct (when_truthy (ld_isbn l)) as [v|]; simpl.
  - destruct (normalizeISBN_js v); simpl; [discriminate|].
    intros E; inversion E; reflexivity.
  - intros E; inversion E; reflexivity.
Qed.

Lemma step_pages {A} t (o : Try A) m st :
  (forall a u r found, m a u = inr (r, found) -> u_pages r = u_pages u) ->
  u_pages (fst (step t o m st)) = u_pages (fst st).
Proof.
  intros Hm; destruct (step_fst t o m st) as [-> | (a & f & _ & E)]; [reflexivity|].
  exact (Hm _ _ _ _ E).
Qed.

Ltac pages_step :=
  rewrite step_pages;
  [ | first [ exact merge_jsonld_pages
            | (intros ? ? ? ?; apply merge_str_pages; intros; reflexivity)
            | (intros [] ? ? ? E; inversion E; reflexivity) ] ].

(** [extractDetailedInfo] never fills [pages]. *)
Lemma extractDetailedInfo_no_pages x pr :
  u_pages (fst (extractDetailedInfo x pr)) = None.
Proof.
  unfold extractDetailedInfo.
  repeat pages_step; reflexivity.
Qed.

Lemma extractDetailedInfo_ran x pr :
  pr_ran (snd (extractDetailedInfo x pr)) = pr_ran pr ++ all_tags.
Proof.
  unfold extractDetailedInfo; rewrite !step_ran; simpl.
  rewrite <- !app_assoc; reflexivity.
Qed.

Lemma extractDetailedInfo_errors x pr :
  pr_errors (snd (extractDetailedInfo x pr)) = pr_errors pr ++ caught_errors x.
Proof.
  unfold extractDetailedInfo.
  rewrite !step_errors_total
    by first [ apply merge_str_total
             | (intros [] ?; eexists; reflexivity) ].
  rewrite step_errors; simpl.
  unfold caught_errors, caught; simpl.
  destruct (try_bind (x_jsonld x) (fun ld => merge_jsonld ld no_updates)); simpl;
  rewrite <- !app_assoc, ?app_nil_r; reflexivity.
Qed.

(** ** C9 (error policy of the detail parser)

    For every detail page (the outcome of each extractor, value or
    exception), every base book and every earlier parser state,
    [enrichBook]: runs all nine extractor blocks whatever fails; appends to
    the parser's error list exactly the tagged exceptions of the blocks
    that failed, in order; and raises iff [BookFactory.update] on the
    gathered updates raises, the raised error being the [ParseError] that
    carries the book id and that original error. *)
Theorem enrichBook_error_policy (coverUrlFor : ustr -> ustr) (x : Extractors)
    (b : Book) (pr : ParseResults) :
  let '(res, pr') := enrichBook coverUrlFor x b pr in
  pr_ran pr' = pr_ran pr ++ all_tags /\
  pr_errors pr' = pr_errors pr ++ caught_errors x /\
  (forall e, res = inl e <->
     exists err,
       update b (with_cover_fallback coverUrlFor b (fst (extractDetailedInfo x pr))) = inl err /\
       e = {| pe_bookId := id b; pe_original := err |}).
Proof.
  unfold enrichBook.
  pose proof (extractDetailedInfo_ran x pr) as Hran.
  pose proof (extractDetailedInfo_errors x pr) as Herr.
  destruct (extractDetailedInfo x pr) as [u pr'] eqn:E; simpl in *.
  destruct (update b (with_cover_fallback coverUrlFor b u)) as [err | b'] eqn:U;
    (split; [exact Hran | split; [exact Herr | intros e; split]]).
  - intros H; inversion H; subst; eauto.
  - intros (err' & H & ->); inversion H; reflexivity.
  - discriminate.
  - intros (err' & H & _); discriminate.
Qed.

Lemma with_cover_fallback_pages coverUrlFor b u :
  u_pages (with_cover_fallback coverUrlFor b u) = u_pages u.
Proof.
  unfold with_cover_fallback.
  destruct (when_truthy (u_coverImageUrl u)); reflexivity.
Qed.

(** [BookFactory.update] with no [pages] in the updates keeps the book's. *)
Lemma update_keeps_pages b u b' :
  update b u = inr b' -> u_pages u = None -> pages b' = pages b.
Proof.
  unfold update, upd, try_bind; intros E Hp.
  destruct (u_title u); [destruct (js_trim _)|]; try discriminate;
  destruct (u_authors u); try (destruct (trim_authors _)); try discriminate;
  destruct (u_publisher u); try (destruct (js_trim _)); try discriminate;
  destruct (u_description u); try (destruct (js_trim_opt _)); try discriminate;
  destruct (u_coverImageUrl u); try (destruct (js_trim_opt _)); try discriminate;
  inversion E; subst; simpl; rewrite Hp; reflexivity.
Qed.

(** A detail page whose extractors find nothing and whose body reads
    `344쪽`. *)
Definition page_344 : DetailPage :=
  {| dp_extractors :=
       {| x_jsonld := inr None; x_isbn := inr None; x_description := inr None;
          x_publisher := inr None; x_publishDate := inr None; x_toc := inr None;
          x_categories := inr []; x_rating := inr None; x_cover := inr None |};
     dp_pages :=
       {| pt_selector := []; pt_detail := []; pt_label := [];
          pt_body := [51%Z; 52%Z; 52%Z; 51901%Z] |} |}.

(** ** C6 (pages of the enriched book)

    For every detail page, every base book and every parser state, when
    [enrichBook] succeeds the enriched book's [pages] is the base book's:
    the page-count cascade ([extractPages]) is never consulted. *)
Theorem enrichBook_keeps_pages (coverUrlFor : ustr -> ustr) (dp : DetailPage)
    (b : Book) (pr : ParseResults) (b' : Book) (pr' : ParseResults) :
  enrichBook coverUrlFor (dp_extractors dp) b pr = (inr b', pr') -> pages b' = pages b.
Proof.
  unfold enrichBook.
  pose proof (extractDetailedInfo_no_pages (dp_extractors dp) pr) as Hp.
  destruct (extractDetailedInfo (dp_extractors dp) pr) as [u pr0]; simpl in Hp.
  destruct (update b (with_cover_fallback coverUrlFor b u)) as [e | b0] eqn:U;
    intros E; inversion E; subst.
  apply (update_keeps_pages _ _ _ U).
  rewrite with_cover_fallback_pages; exact Hp.
Qed.

Definition base_1 : Book := Books.create (Service.baseBookInput [49%Z] [49%Z]).

Definition enriched_344 : Book :=
  match fst (enrichBook (fun c => c) (dp_extractors page_344) base_1 fresh_results) with
  | inr b => b
  | inl _ => base_1
  end.

Definition results_344 : ParseResults :=
  snd (enrichBook (fun c => c) (dp_extractors page_344) base_1 fresh_results).

Lemma enrichBook_keeps_pages_witness :
  enrichBook (fun c => c) (dp_extractors page_344) base_1 fresh_results
    = (inr enriched_344, results_344)
  /\ pages enriched_344 = pages base_1.
Proof.
  split; [vm_compute; reflexivity|].
  apply (enrichBook_keeps_pages (fun c => c) page_344 base_1 fresh_results
           enriched_344 results_344).
  vm_compute; reflexivity.
Defined.

(** C6 counterexample: on [page_344] the cascade reads 344 pages, in
    (0, 5000), yet the book [getBookDetail] returns has no [pages]. *)
Lemma getBookDetail_page_344_has_no_pages :
  extractPages (dp_pages page_344) = Some 344%Z /\
  match fst (Service.getBookDetail (fun _ => inr page_344) (fun c => c) (fun _ => None)
               false [49%Z] {| Service.store := []; Service.log := [] |}) with
  | inr b => pages b = None
  | inl _ => False
  end.
Proof. vm_compute; split; reflexivity. Qed.

End DetailProofs.

Module InvariantProofs.
Import JS Books Detail Service.

(** The part of the stated Book invariant the factory enforces. *)
Definition book_valid (b : Book) : Prop :=
  match rating b with Some r => (0 <= r <= 10)%Q | None => True end /\
  match pages b with Some p => (0 < p)%Q | None => True end.

Lemma valid_rating_range r x : valid_rating r = Some x -> (0 <= x <= 10)%Q.
Proof.
  destruct r as [y|]; simpl; [|discriminate].
  destruct (Qeq_bool y 0); simpl; [discriminate|].
  destruct (Qle_bool 0 y) eqn:H0; simpl; [|discriminate].
  destruct (Qle_bool y 10) eqn:H1; simpl; [|discriminate].
  intros E; inversion E; subst.
  apply Qle_bool_iff in H0, H1; split; assumption.
Qed.

Lemma positive_pages_pos p x : positive_pages p = Some x -> (0 < x)%Q.
Proof.
  destruct p as [y|]; simpl; [|discriminate].
  destruct (Qlt_le_dec 0 y); intros E; inversion E; subst; assumption.
Qed.

Lemma valid_rating_ok r :
  match valid_rating r with Some x => (0 <= x <= 10)%Q | None => True end.
Proof. destruct (valid_rating r) eqn:E; [exact (valid_rating_range _ _ E) | exact I]. Qed.

Lemma positive_pages_ok p :
  match positive_pages p with Some x => (0 < x)%Q | None => True end.
Proof. destruct (positive_pages p) eqn:E; [exact (positive_pages_pos _ _ E) | exact I]. Qed.

(** ** C3 (Book invariant)

    Every book [BookFactory.create] builds has its rating absent or in
    [0, 10] and its pages absent or positive, and [BookFactory.update]
    (hence [enrichBook] and every later merge) keeps both. The listing
    parser and the detail flow build every book with these two. *)
Theorem factory_keeps_rating_pages_invariant :
  (forall c : CreateBookInput, book_valid (create c)) /\
  (forall (b : Book) (u : UpdateBookInput) (b' : Book),
     book_valid b -> update b u = inr b' -> book_valid b').
Proof.
  split.
  - intros c; split; [apply valid_rating_ok | apply positive_pages_ok].
  - intros b u b' [Hr Hp] E.
    unfold update, upd, try_bind in E.
    destruct (u_title u); [destruct (js_trim _)|]; try discriminate;
    destruct (u_authors u); try (destruct (trim_authors _)); try discriminate;
    destruct (u_publisher u); try (destruct (js_trim _)); try discriminate;
    destruct (u_description u); try (destruct (js_trim_opt _)); try discriminate;
    destruct (u_coverImageUrl u); try (destruct (js_trim_opt _)); try discriminate;
    inversion E; subst; split; simpl;
    solve [ destruct (u_rating u) as [r|]; [exact (valid_rating_ok (Some r)) | exact Hr]
          | destruct (u_pages u) as [p|]; [exact (positive_pages_ok (Some p)) | exact Hp] ].
Qed.

Definition valid_book_1 : Book := create (baseBookInput [49%Z] [49%Z]).

Definition rating_update : UpdateBookInput :=
  {| u_title := None; u_authors := None; u_publisher := None; u_subtitle := None;
     u_publishDate := None; u_isbn := None; u_pages := Some 344%Q; u_language := None;
     u_description := None; u_tableOfContents := None; u_categories := None;
     u_rating := Some (17 # 2)%Q; u_coverImageUrl := None; u_detailPageUrl := None |}.

Definition updated_1 : Book :=
  match update valid_book_1 rating_update with inr b => b | inl _ => valid_book_1 end.

Lemma factory_keeps_rating_pages_invariant_witness :
  book_valid valid_book_1 /\ update valid_book_1 rating_update = inr updated_1 /\
  book_valid updated_1.
Proof.
  assert (Hv : book_valid valid_book_1).
  { apply (proj1 factory_keeps_rating_pages_invariant). }
  assert (Hu : update valid_book_1 rating_update = inr updated_1).
  { vm_compute; reflexivity. }
  split; [exact Hv | split; [exact Hu |]].
  exact (proj2 factory_keeps_rating_pages_invariant _ _ _ Hv Hu).
Defined.

(** A detail page whose JSON-LD has an ISBN `12345` and no name, and
    whose other extractors find nothing. *)
Definition page_raw_isbn : DetailPage :=
  {| dp_extractors :=
       {| x_jsonld := inr (Some {| ld_name := None;
                                   ld_isbn := Some (JStr [49%Z; 50%Z; 51%Z; 52%Z; 53%Z]);
                                   ld_image := None; ld_description := None;
                                   ld_publisher := None; ld_authors := None |});
          x_isbn := inr None; x_description := inr None;
          x_publisher := inr None; x_publishDate := inr None; x_toc := inr None;
          x_categories := inr []; x_rating := inr None; x_cover := inr None |};
     dp_pages := {| pt_selector := []; pt_detail := []; pt_label := []; pt_body := [] |} |}.

(** C3 counterexample: [getBookDetail] on [page_raw_isbn] returns a book
    with an empty title and the 5-character ISBN `12345`. *)
Lemma getBookDetail_empty_title_raw_isbn :
  match fst (getBookDetail (fun _ => inr page_raw_isbn) (fun c => c) (fun _ => None)
               false [49%Z] {| store := []; log := [] |}) with
  | inr b => title b = [] /\ isbn b = Some [49%Z; 50%Z; 51%Z; 52%Z; 53%Z]
  | inl _ => False
  end.
Proof. vm_compute; split; reflexivity. Qed.

End InvariantProofs.

Module ServiceProofs.
Import JS Books Detail Service.

Section WithEnv.

Variable fetchDetail : ustr -> Try DetailPage.
Variable coverUrlFor : ustr -> ustr.
Variable fetchToc : ustr -> option ustr.

Definition getBookDetail' := getBookDetail fetchDetail coverUrlFor fetchToc.
Definition fetchAndEnrich' := fetchAndEnrich fetchDetail coverUrlFor fetchToc.

(** The cache of [s] with every entry under [k] removed. *)
Definition without_key (k : ustr) (s : Svc) : Svc :=
  {| store := filter (fun p => negb (ustr_eqb (fst p) k)) (store s); log := log s |}.

Lemma ustr_eqb_refl k : ustr_eqb k k = true.
Proof. unfold ustr_eqb; destruct (list_eq_dec Z.eq_dec k k); congruence. Qed.

Lemma lookup_without k st : lookup k (filter (fun p => negb (ustr_eqb (fst p) k)) st) = None.
Proof.
  induction st as [|[k' v] r IH]; simpl; [reflexivity|].
  unfold ustr_eqb at 1; destruct (list_eq_dec Z.eq_dec k' k) as [->|Hne]; simpl.
  - exact IH.
  - unfold ustr_eqb; destruct (list_eq_dec Z.eq_dec k k'); [congruence|exact IH].
Qed.

(** The result of the fetch path does not depend on the state. *)
Lemma fetchAndEnrich_result t bookId s1 s2 :
  fst (fetchAndEnrich' t bookId s1) = fst (fetchAndEnrich' t bookId s2).
Proof.
  unfold fetchAndEnrich', fetchAndEnrich.
  destruct (fetchDetail _); [reflexivity|].
  destruct (fst (enrichBook _ _ _ _)); reflexivity.
Qed.

(** The fetch path logs the detail-page fetch. *)
Lemma fetchAndEnrich_fetches t bookId s :
  In (OFetch (buildDetailUrl bookId)) (log (snd (fetchAndEnrich' t bookId s))).
Proof.
  unfold fetchAndEnrich', fetchAndEnrich.
  destruct (fetchDetail _); [|destruct (fst (enrichBook _ _ _ _))];
    cbn [snd log emit cache_set]; rewrite ?in_app_iff; simpl; auto.
Qed.

End WithEnv.

(** ** C4 (thin cache hits)

    When the cache holds [cachedBook] under `detail:<id>`: if
    [hasEnriched cachedBook] (a non-blank description or TOC, a trimmed
    ISBN of at least 10 characters, or positive pages), [getBookDetail]
    returns it after the [has] and [get] calls only, with no fetch;
    otherwise it fetches the detail page and returns exactly what it
    returns when the key is absent from the cache. *)
Theorem getBookDetail_thin_hit (fetchDetail : ustr -> Try DetailPage)
    (coverUrlFor : ustr -> ustr) (fetchToc : ustr -> option ustr)
    (tocApiFirst : bool) (bookId : ustr) (s : Svc) (cachedBook : Book) :
  lookup (detail_prefix ++ bookId) (store s) = Some cachedBook ->
  let key := detail_prefix ++ bookId in
  let run := getBookDetail fetchDetail coverUrlFor fetchToc tocApiFirst bookId s in
  (hasEnriched cachedBook = true ->
     fst run = inr cachedBook /\ log (snd run) = log s ++ [OHas key; OGet key]) /\
  (hasEnriched cachedBook = false ->
     fst run = fst (getBookDetail fetchDetail coverUrlFor fetchToc tocApiFirst bookId
                      (without_key key s)) /\
     In (OFetch (buildDetailUrl bookId)) (log (snd run))).
Proof.
  intros Hl key run; subst run.
  unfold getBookDetail, cache_has; fold key; fold key in Hl.
  clearbody key.
  rewrite Hl; simpl; rewrite Hl.
  split; intros He; rewrite He.
  - simpl; rewrite <- app_assoc; split; reflexivity.
  - rewrite lookup_without; simpl; split.
    + apply (fetchAndEnrich_result fetchDetail coverUrlFor fetchToc).
    + apply (fetchAndEnrich_fetches fetchDetail coverUrlFor fetchToc).
Qed.

Definition rich_book : Book :=
  create {| c_id := [49%Z]; c_title := [65%Z]; c_authors := []; c_publisher := [];
            c_subtitle := None; c_publishDate := None; c_isbn := None; c_pages := None;
            c_language := None; c_description := Some [66%Z]; c_tableOfContents := None;
            c_categories := None; c_rating := None; c_coverImageUrl := None;
            c_detailPageUrl := None |}.

Definition rich_state : Svc :=
  {| store := [(detail_prefix ++ [49%Z], rich_book)]; log := [] |}.

Lemma getBookDetail_thin_hit_witness :
  lookup (detail_prefix ++ [49%Z]) (store rich_state) = Some rich_book /\
  hasEnriched rich_book = true /\
  fst (getBookDetail (fun _ => inl (ExnMsg "offline")) (fun c => c) (fun _ => None)
         false [49%Z] rich_state) = inr rich_book.
Proof.
  split; [reflexivity | split; [reflexivity |]].
  apply (proj1 (getBookDetail_thin_hit (fun _ => inl (ExnMsg "offline")) (fun c => c)
                  (fun _ => None) false [49%Z] rich_state rich_book eq_refl) eq_refl).
Defined.

(** A cached record carrying the ISBN `12345` and nothing else. *)
Definition isbn_only_book : Book :=
  create {| c_id := [49%Z]; c_title := [65%Z]; c_authors := []; c_publisher := [];
            c_subtitle := None; c_publishDate := None;
            c_isbn := Some [49%Z; 50%Z; 51%Z; 52%Z; 53%Z]; c_pages := None;
            c_language := None; c_description := None; c_tableOfContents := None;
            c_categories := None; c_rating := None; c_coverImageUrl := None;
            c_detailPageUrl := None |}.

(** C4 counterexample: with [isbn_only_book] cached, [getBookDetail]
    does not return it; it fetches the page (here the fetch fails). *)
Lemma getBookDetail_refetches_isbn_only :
  let run := getBookDetail (fun _ => inl (ExnMsg "offline")) (fun c => c) (fun _ => None)
               false [49%Z] {| store := [(detail_prefix ++ [49%Z], isbn_only_book)]; log := [] |} in
  isbn isbn_only_book <> None /\
  fst run = inl (NetworkError (ExnMsg "offline")) /\
  In (OFetch (buildDetailUrl [49%Z])) (log (snd run)).
Proof.
  vm_compute. split; [discriminate | split; [reflexivity | auto]].
Qed.

(** [s'] agrees with [s] on every `search:` key: same cache entry, and no
    new [set] call for it. *)
Definition search_frame (s s' : Svc) : Prop :=
  forall k, prefixb search_prefix k = true ->
    lookup k (store s') = lookup k (store s) /\
    (In (OSet k) (log s') -> In (OSet k) (log s)).

Lemma search_frame_refl s : search_frame s s.
Proof. intros k _; split; auto. Qed.

Lemma search_frame_trans s1 s2 s3 :
  search_frame s1 s2 -> search_frame s2 s3 -> search_frame s1 s3.
Proof.
  intros H12 H23 k Hk.
  destruct (H12 k Hk) as [A1 B1], (H23 k Hk) as [A2 B2].
  split; [congruence | auto].
Qed.

Lemma search_frame_emit o s :
  (forall k, o = OSet k -> prefixb search_prefix k = false) -> search_frame s (emit o s).
Proof.
  intros Ho k Hk; split; [reflexivity|].
  simpl; rewrite in_app_iff; intros [H|[H|[]]]; [exact H|].
  subst o; rewrite (Ho k eq_refl) in Hk; discriminate.
Qed.

Lemma lookup_filter_other k k' st :
  ustr_eqb k k' = false ->
  lookup k (filter (fun p => negb (ustr_eqb (fst p) k')) st) = lookup k st.
Proof.
  intros Hne; induction st as [|[k0 v] r IH]; simpl; [reflexivity|].
  destruct (ustr_eqb k0 k') eqn:E0; simpl.
  - assert (k0 = k') as ->.
    { unfold ustr_eqb in E0; destruct (list_eq_dec Z.eq_dec k0 k'); congruence. }
    rewrite Hne; exact IH.
  - rewrite IH; reflexivity.
Qed.

Lemma detail_not_search bookId : prefixb search_prefix (detail_prefix ++ bookId) = false.
Proof. reflexivity. Qed.

Lemma search_not_detail k bookId :
  prefixb search_prefix k = true -> ustr_eqb k (detail_prefix ++ bookId) = false.
Proof.
  intros Hk; unfold ustr_eqb.
  destruct (list_eq_dec Z.eq_dec k (detail_prefix ++ bookId)) as [->|]; [|reflexivity].
  rewrite detail_not_search in Hk; discriminate.
Qed.

Lemma search_frame_set bookId v s :
  search_frame s (cache_set (detail_prefix ++ bookId) v s).
Proof.
  intros k Hk; unfold cache_set; cbn [store log]; split.
  - cbn [lookup fst]; rewrite (search_not_detail k bookId Hk).
    apply lookup_filter_other, search_not_detail, Hk.
  - rewrite in_app_iff; intros [H|[H|[]]]; [exact H|].
    assert (k = detail_prefix ++ bookId) as -> by congruence.
    rewrite detail_not_search in Hk; discriminate.
Qed.

Ltac frame_emit := apply search_frame_emit; intros ? E; discriminate E.

Lemma getBookDetail_frame fetchDetail coverUrlFor fetchToc t bookId s :
  search_frame s (snd (getBookDetail fetchDetail coverUrlFor fetchToc t bookId s)).
Proof.
  assert (Hf : forall s0, search_frame s0 (snd (fetchAndEnrich fetchDetail coverUrlFor fetchToc t bookId s0))).
  { intros s0; unfold fetchAndEnrich.
    destruct (fetchDetail _); [simpl; frame_emit|].
    destruct (fst (enrichBook _ _ _ _)); [simpl; frame_emit|].
    eapply search_frame_trans; [|apply search_frame_set].
    frame_emit. }
  unfold getBookDetail, cache_has.
  set (key := detail_prefix ++ bookId).
  assert (Hh : search_frame s (emit (OHas key) s)) by frame_emit.
  assert (Hg : search_frame (emit (OHas key) s) (emit (OGet key) (emit (OHas key) s))) by frame_emit.
  destruct (lookup key (store s)) as [cb|] eqn:L; simpl.
  - rewrite L.
    destruct (hasEnriched cb); simpl.
    + eapply search_frame_trans; eassumption.
    + eapply search_frame_trans; [eassumption|].
      eapply search_frame_trans; [eassumption|apply Hf].
  - eapply search_frame_trans; [eassumption|apply Hf].
Qed.

Lemma enrichBooksWithDetails_frame fetchDetail coverUrlFor fetchToc books s :
  search_frame s (snd (enrichBooksWithDetails fetchDetail coverUrlFor fetchToc books s)).
Proof.
  revert s; induction books as [|b r IH]; intros s; simpl; [apply search_frame_refl|].
  pose proof (getBookDetail_frame fetchDetail coverUrlFor fetchToc false (id b) s) as H1.
  destruct (getBookDetail fetchDetail coverUrlFor fetchToc false (id b) s) as [res s1].
  specialize (IH s1).
  destruct (enrichBooksWithDetails fetchDetail coverUrlFor fetchToc r s1) as [bs s2].
  simpl in *; eapply search_frame_trans; eassumption.
Qed.

(** ** C10 (search results are never served from the cache)

    For a valid query with [cacheResults] on, when the cache has an entry
    under the search key, [searchBooks] returns no books and a total of 0,
    whatever the entry is; and for every query and options, [searchBooks]
    neither changes the entry under any `search:` key nor calls [set] on
    one. *)
Theorem searchBooks_search_cache_stub fetchDetail coverUrlFor fetchToc fetchSearch
    encodeKey buildSearchUrl (q : ustr) (o : SearchOptions) (s : Svc) :
  let run := searchBooks fetchDetail coverUrlFor fetchToc fetchSearch encodeKey
               buildSearchUrl q o s in
  (validQuery q = true -> cacheResults o = true ->
   lookup (buildSearchCacheKey encodeKey q o) (store s) <> None ->
   exists r, fst run = inr r /\ sr_books r = [] /\ sr_totalFound r = 0%Z) /\
  search_frame s (snd run).
Proof.
  intros run; subst run; unfold searchBooks.
  set (key := buildSearchCacheKey encodeKey q o).
  split.
  - intros Hv Hc Hl; rewrite Hv, Hc; unfold cache_has; simpl.
    destruct (lookup key (store s)); [|congruence].
    eexists; split; [reflexivity | split; reflexivity].
  - destruct (validQuery q); simpl; [|apply search_frame_refl].
    assert (H1 : search_frame s (snd (if cacheResults o then cache_has key s else (false, s)))).
    { destruct (cacheResults o); [unfold cache_has; frame_emit | apply search_frame_refl]. }
    destruct (if cacheResults o then cache_has key s else (false, s)) as [hit s1].
    simpl in H1; destruct hit; [exact H1|].
    assert (H2 : search_frame s (emit (OFetch (buildSearchUrl q (maxResults o))) s1)).
    { eapply search_frame_trans; [exact H1 | frame_emit]. }
    destruct (fetchSearch q (maxResults o)) as [e|[books total]]; [exact H2|].
    assert (H3 := enrichBooksWithDetails_frame fetchDetail coverUrlFor fetchToc books
                    (emit (OFetch (buildSearchUrl q (maxResults o))) s1)).
    destruct (enableDetailFetch o);
    [ destruct (enrichBooksWithDetails fetchDetail coverUrlFor fetchToc books
                  (emit (OFetch (buildSearchUrl q (maxResults o))) s1)) as [enriched s2] | ];
    unfold cacheSearchResult; destruct (cacheResults o); simpl in *;
    try (eapply search_frame_trans; eassumption); exact H2.
Qed.

Definition search_opts : SearchOptions :=
  {| maxResults := 20; enableDetailFetch := false; cacheResults := true |}.

Definition stub_key (q : ustr) (n : Z) (d : bool) : ustr := q.

Definition search_state : Svc :=
  {| store := [(buildSearchCacheKey stub_key [65%Z; 66%Z] search_opts, rich_book)]; log := [] |}.

Lemma searchBooks_search_cache_stub_witness :
  validQuery [65%Z; 66%Z] = true /\ cacheResults search_opts = true /\
  lookup (buildSearchCacheKey stub_key [65%Z; 66%Z] search_opts) (store search_state) <> None /\
  exists r, fst (searchBooks (fun _ => inl (ExnMsg "offline")) (fun c => c) (fun _ => None)
                   (fun _ _ => inr ([rich_book], 1%Z)) stub_key (fun q _ => q)
                   [65%Z; 66%Z] search_opts search_state) = inr r
            /\ sr_books r = [] /\ sr_totalFound r = 0%Z.
Proof.
  assert (Hl : lookup (buildSearchCacheKey stub_key [65%Z; 66%Z] search_opts)
                 (store search_state) <> None) by (vm_compute; discriminate).
  split; [reflexivity | split; [reflexivity | split; [exact Hl |]]].
  exact (proj1 (searchBooks_search_cache_stub (fun _ => inl (ExnMsg "offline")) (fun c => c)
                  (fun _ => None) (fun _ _ => inr ([rich_book], 1%Z)) stub_key (fun q _ => q)
                  [65%Z; 66%Z] search_opts search_state) eq_refl eq_refl Hl).
Defined.
End ServiceProofs.

Module ListingProofs.
Import JS Books Listing.

(** The structural path drops every package item. *)
Lemma filterValidItems_no_package items it :
  In it (filterValidItems items) -> isPackageProduct (it_text it) = false.
Proof.
  unfold filterValidItems; rewrite filter_In; intros [_ H].
  rewrite !andb_true_iff in H; destruct H as [_ H].
  apply negb_true_iff in H; exact H.
Qed.

(** The text of a set's listing block:
    `Harry Potter 세트 (1-7) J.K. Rowling`. *)
Definition set_title : ustr := ascii_ustr "Harry Potter " ++ [49464%Z; 53944%Z] ++ ascii_ustr " (1-7)".
Definition set_text : ustr := set_title ++ ascii_ustr " J.K. Rowling".

(** The block `<section class='card'><a href='https://product.kyobobook.co.kr/detail/S000001234567'>Harry Potter 세트 (1-7)</a> <span>J.K. Rowling</span></section>`:
    no SEARCH_RESULT_ITEMS selector matches a [section] of class `card`,
    the link matches the first BOOK_DETAIL_LINKS selector, its parent passes
    [isBookContainer] (class `card`, 34 characters of text), and
    [UrlUtils.extractBookId] gives the id `000001234567`. *)
Definition set_item : Item :=
  {| it_node := 1;
     it_visible := true;
     it_hasDetailLink := true;
     it_text := set_text;
     it_className := ascii_ustr "card";
     it_textContentLength := JS.length set_text;
     it_title := set_title;
     it_linkBookId := Some (ascii_ustr "000001234567");
     it_authors := [ascii_ustr "J.K. Rowling"];
     it_publisher := [];
     it_publishDate := None;
     it_bid := [];
     it_cover := [] |}.

(** A page whose only block is [set_item]: no structural selector
    matches, and its one detail link has [set_item] as parent. *)
Definition set_page : SearchPage := {| sp_items := []; sp_links := [[set_item]] |}.

(** ** C2 (package exclusion on the link fallback)

    On [set_page] the structural selectors match nothing, so
    [findItemsByLinks] supplies the items; it has no package filter, and
    [parseBooks] returns a Book built from [set_item], whose text contains
    the package keyword 세트 — whatever [cleanTitle], the URL builders and
    the temporary id are. *)
Theorem parseBooks_link_fallback_keeps_package (cleanTitle buildCoverImageUrl
    buildDetailPageUrl : ustr -> ustr) (tempId : ustr) :
  isPackageProduct (it_text set_item) = true /\
  exists b, parseBooks cleanTitle buildCoverImageUrl buildDetailPageUrl tempId set_page 20
              = inr [b] /\ id b = ascii_ustr "000001234567".
Proof.
  split; [vm_compute; reflexivity|].
  vm_compute; eexists; split; reflexivity.
Qed.

End ListingProofs.

Module CacheProofs.
Import JS Cache.

(** An entry stored at time 0 and never read since. *)
Definition entry0 : CacheEntry nat :=
  {| value := 0%nat; timestamp := 0; lastAccess := 0; accessCount := 1 |}.

(** ** C8 (eviction on a full cache)

    A cache of capacity 1 holding a single entry under the empty key:
    [set] of the new key `a` at time 1000 evicts nothing (the scan picks
    the empty key, which equals the sentinel the code tests), so the cache
    ends with two entries, the old one included. *)
Theorem set_full_cache_empty_key_not_evicted :
  let c := [([], entry0)] in
  let c' := set 1 1000 [97%Z] 7%nat c in
  (1 <= Z.of_nat (List.length c))%Z /\ has [97%Z] c = false /\
  List.length c' = 2%nat /\ has [] c' = true.
Proof. vm_compute; repeat split; (reflexivity || discriminate). Qed.

End CacheProofs.

(* ------------------------------------------------------------------ *)
(** ** The client: retry schedule, rate limiting, User-Agent rotation *)
(* ------------------------------------------------------------------ *)

Module ClientProofs.
Import Http Client.

Lemma or_retries_pos o f : (1 <= f)%nat -> (1 <= or_retries o f)%nat.
Proof.
  intros H; destruct o as [n|]; simpl; [|exact H].
  destruct (Nat.eqb_spec n 0); [exact H | lia].
Qed.

Lemma merged_retries_pos ctor call : (1 <= merged_retries ctor call)%nat.
Proof. apply or_retries_pos, or_retries_pos; lia. Qed.

(** The attempts and delays of the loop from attempt [a], with [f]
    attempts left before the last one ([retries]). *)
Lemma retry_from_shape tr retries f : forall a last,
  (a + f = S retries)%nat -> (1 <= f)%nat ->
  exists m, (1 <= m <= f)%nat /\
    run_attempts (retry_from tr retries a f last) = seq a m /\
    run_delays (retry_from tr retries a f last) = map backoff (seq a (m - 1)).
Proof.
  induction f as [|f IH]; intros a last Hsum Hf; [lia|].
  simpl. destruct (executeRequest (tr a)) as [e|r]; simpl.
  - destruct f as [|f'].
    + exists 1%nat. replace (a <? retries)%nat with false
        by (symmetry; apply Nat.ltb_ge; lia). simpl. repeat split; lia.
    + destruct (IH (S a) (Some e)) as [m [Hm [Ha Hd]]]; [lia|lia|].
      exists (S m). split; [lia|]. rewrite Ha, Hd. split; [reflexivity|].
      replace (a <? retries)%nat with true by (symmetry; apply Nat.ltb_lt; lia).
      destruct m as [|m]; [lia|]. simpl. rewrite Nat.sub_0_r. reflexivity.
  - exists 1%nat. repeat split; lia.
Qed.

(** The outcome of the loop from attempt [a] with [f] attempts left:
    a success is the answer of the first successful attempt; a failure
    means every attempt failed, and it keeps the last one's error. *)
Lemma retry_from_success tr retries f : forall a last r,
  run_outcome (retry_from tr retries a f last) = inr r <->
  exists k, (a <= k < a + f)%nat /\ executeRequest (tr k) = inr r /\
    forall j, (a <= j < k)%nat -> exists e, executeRequest (tr j) = inl e.
Proof.
  induction f as [|f IH]; intros a last r; simpl.
  - split; [discriminate | intros [k [Hk _]]; lia].
  - destruct (executeRequest (tr a)) as [e|r'] eqn:Ha; simpl.
    + rewrite IH. split.
      * intros [k [Hk [Hr Hj]]]. exists k. split; [lia|]. split; [exact Hr|].
        intros j Hj'. destruct (Nat.eq_dec j a) as [->|Hne]; [eauto|apply Hj; lia].
      * intros [k [Hk [Hr Hj]]]. destruct (Nat.eq_dec k a) as [->|Hne]; [congruence|].
        exists k. split; [lia|]. split; [exact Hr|]. intros j Hj'; apply Hj; lia.
    + split.
      * intros H; injection H as <-. exists a. split; [lia|]. split; [exact Ha|].
        intros j Hj; lia.
      * intros [k [Hk [Hr Hj]]]. destruct (Nat.eq_dec k a) as [->|Hne]; [congruence|].
        destruct (Hj a) as [e He]; [lia|congruence].
Qed.

Lemma retry_from_failure tr retries f : forall a last le,
  (1 <= f)%nat ->
  run_outcome (retry_from tr retries a f last) = inl le ->
  (forall j, (a <= j < a + f)%nat -> exists e, executeRequest (tr j) = inl e) /\
  exists e, le = Some e /\ executeRequest (tr (a + f - 1)%nat) = inl e.
Proof.
  induction f as [|f IH]; intros a last le Hf; [lia|]. simpl.
  destruct (executeRequest (tr a)) as [e|r] eqn:Ha; simpl; [|discriminate].
  destruct f as [|f'].
  - simpl. intros H; injection H as <-. split.
    + intros j Hj. replace j with a by lia. eauto.
    + exists e. split; [reflexivity|].
      replace (a + 1 - 1)%nat with a by lia. exact Ha.
  - intros H. destruct (IH (S a) (Some e) le) as [Hall [e' [He' Hr]]]; [lia|exact H|].
    split.
    + intros j Hj. destruct (Nat.eq_dec j a) as [->|Hne]; [eauto|apply Hall; lia].
    + exists e'. split; [exact He'|].
      replace (a + S (S f') - 1)%nat with (S a + S f' - 1)%nat by lia. exact Hr.
Qed.

(** ** X1: the attempt schedule of [get]

    [get] makes between 1 and [merged_retries] attempts (the count is
    never 0), numbered from 1 without gaps, and sleeps [backoff i]
    (1 s, 2 s, 4 s, ...) after each failed attempt [i] but the last one
    it makes. *)
Theorem get_attempt_schedule ctor call tr :
  let n := merged_retries ctor call in
  let run := get ctor call tr in
  (1 <= n)%nat /\
  exists m, (1 <= m <= n)%nat /\ run_attempts run = seq 1 m /\
            run_delays run = map backoff (seq 1 (m - 1)).
Proof.
  intros n run. split; [apply merged_retries_pos|].
  apply retry_from_shape; [lia | apply merged_retries_pos].
Qed.

(** ** X2: the outcome of [get]

    [get] succeeds with response [r] exactly when some attempt [k] among
    the first [merged_retries] answers [r] and every attempt before it
    fails; when it fails, every attempt failed and the error it carries
    is the last attempt's. *)
Theorem get_outcome ctor call tr :
  let n := merged_retries ctor call in
  let run := get ctor call tr in
  (forall r, run_outcome run = inr r <->
     exists k, (1 <= k <= n)%nat /\ executeRequest (tr k) = inr r /\
       forall j, (1 <= j < k)%nat -> exists e, executeRequest (tr j) = inl e) /\
  (forall le, run_outcome run = inl le ->
     (forall j, (1 <= j <= n)%nat -> exists e, executeRequest (tr j) = inl e) /\
     exists e, le = Some e /\ executeRequest (tr n) = inl e).
Proof.
  intros n run. unfold run, get, executeWithRetry. fold n. split.
  - intros r. rewrite retry_from_success. split; intros [k [Hk H]]; exists k; (split; [lia|exact H]).
  - intros le Hle. pose proof (merged_retries_pos ctor call) as Hn; fold n in Hn. split.
    + destruct (retry_from_failure tr n n 1 None le Hn Hle) as [Hall _].
      intros j Hj; apply Hall; lia.
    + destruct (retry_from_failure tr n n 1 None le Hn Hle) as [_ [e [-> He]]].
      exists e. split; [reflexivity|]. now replace n with (1 + n - 1)%nat by lia.
Qed.

Lemma enforceRateLimit_bound last now :
  now <= now + enforceRateLimit last now /\ last + minRequestInterval <= now + enforceRateLimit last now.
Proof.
  unfold enforceRateLimit, minRequestInterval.
  destruct (Z.ltb_spec (now - last) 1000); lia.
Qed.

Lemma rateLimitedTimes_length last calls :
  List.length (rateLimitedTimes last calls) = List.length calls.
Proof.
  revert last; induction calls as [|[now late] r IH]; intros last; simpl; [reflexivity|].
  now rewrite IH.
Qed.

Lemma rateLimitedTimes_spacing calls : forall last,
  Forall (fun c => 0 <= snd c) calls ->
  let ts := rateLimitedTimes last calls in
  (forall i, (S i < List.length ts)%nat -> nth i ts 0 + minRequestInterval <= nth (S i) ts 0) /\
  (forall i, (i < List.length calls)%nat -> fst (nth i calls (0, 0)) <= nth i ts 0) /\
  (forall t, hd_error ts = Some t -> last + minRequestInterval <= t).
Proof.
  induction calls as [|[now late] r IH]; intros last Hl ts; subst ts; simpl.
  - split; [intros i Hi; lia|split; [intros i Hi; lia|discriminate]].
  - inversion Hl as [|? ? Hlate Hr]; subst; simpl in Hlate.
    destruct (enforceRateLimit_bound last now) as [B1 B2].
    set (t := now + enforceRateLimit last now + late).
    destruct (IH t Hr) as [S1 [S2 S3]]. split; [|split].
    + intros [|i] Hi.
      * simpl. destruct (rateLimitedTimes t r) as [|t' r'] eqn:E; simpl in Hi; [lia|].
        apply S3. reflexivity.
      * simpl in Hi |- *. apply S1. lia.
    + intros [|i] Hi; simpl; [unfold t; lia|]. apply S2. simpl in Hi; lia.
    + intros t' H; injection H as <-. unfold t; lia.
Qed.

(** ** X3: rate limiting

    Sequential requests through one client (its [lastRequestTime]
    starting at 0) go out at least [minRequestInterval] = 1000 ms apart,
    and none goes out before the clock time at which it was made, however
    late the timers fire. *)
Theorem rateLimit_spacing (calls : list (Z * Z)) :
  Forall (fun c => 0 <= snd c) calls ->
  let ts := rateLimitedTimes 0 calls in
  List.length ts = List.length calls /\
  (forall i, (S i < List.length ts)%nat -> nth i ts 0 + 1000 <= nth (S i) ts 0) /\
  (forall i, (i < List.length calls)%nat -> fst (nth i calls (0, 0)) <= nth i ts 0).
Proof.
  intros Hl ts. split; [apply rateLimitedTimes_length|].
  destruct (rateLimitedTimes_spacing calls 0 Hl) as [S1 [S2 _]]. split; assumption.
Qed.

Lemma rateLimit_spacing_witness :
  Forall (fun c => 0 <= snd c) [(5000, 0); (5200, 3); (9000, 0)] /\
  rateLimitedTimes 0 [(5000, 0); (5200, 3); (9000, 0)] = [5000; 6003; 9000] /\
  nth 0 (rateLimitedTimes 0 [(5000, 0); (5200, 3); (9000, 0)]) 0 + 1000 <=
  nth 1 (rateLimitedTimes 0 [(5000, 0); (5200, 3); (9000, 0)]) 0.
Proof.
  assert (H : Forall (fun c => 0 <= snd c) [(5000, 0); (5200, 3); (9000, 0)])
    by (repeat constructor; simpl; lia).
  split; [exact H|]. split; [vm_compute; reflexivity|].
  destruct (rateLimit_spacing [(5000, 0); (5200, 3); (9000, 0)] H) as [_ [G _]].
  apply (G 0%nat). rewrite rateLimitedTimes_length. simpl. lia.
Defined.

Lemma request_agents_none m : forall idx, (idx < 3)%nat ->
  request_agents idx (repeat None m) =
  map (fun i => nth ((i + idx) mod 3) userAgents EmptyString) (seq 0 m).
Proof.
  induction m as [|m IH]; intros idx Hidx; [reflexivity|].
  change (request_agents idx (repeat None (S m))) with
    (nth idx userAgents EmptyString :: request_agents (Nat.modulo (S idx) 3) (repeat None m)).
  rewrite IH by (apply Nat.mod_upper_bound; lia).
  cbn [seq map]. rewrite Nat.add_0_l, (Nat.mod_small idx 3 Hidx). f_equal.
  rewrite <- seq_shift, map_map. apply map_ext. intros i.
  f_equal. rewrite Nat.Div0.add_mod_idemp_r. f_equal. lia.
Qed.

(** ** X4: User-Agent rotation

    Requests that give no [userAgent] of their own send the three agents
    of [userAgents] in turn: from the first one when the constructor got
    an agent, from the second one otherwise (the constructor consumed the
    first). The agent given to the constructor is never sent: every agent
    sent is one of [userAgents]. *)
Theorem request_userAgent_rotation (ctor_ua : option string) (m : nat) :
  let start := match truthy_ua ctor_ua with Some _ => 0%nat | None => 1%nat end in
  client_agents ctor_ua (repeat None m) =
    map (fun i => nth ((i + start) mod 3) userAgents EmptyString) (seq 0 m) /\
  (forall a, In a (client_agents ctor_ua (repeat None m)) -> In a userAgents).
Proof.
  intros start.
  assert (Hc : client_agents ctor_ua (repeat None m) =
    map (fun i => nth ((i + start) mod 3) userAgents EmptyString) (seq 0 m)).
  { unfold client_agents, construct_ua, start.
    destruct (truthy_ua ctor_ua); apply request_agents_none; simpl; lia. }
  split; [exact Hc|]. rewrite Hc. intros a Ha.
  apply in_map_iff in Ha as [i [<- _]]. apply nth_In.
  apply Nat.mod_upper_bound. discriminate.
Qed.

(** The backoff delays after attempts [a .. a+k-1] sum to
    [1000 * 2^(a-1) * (2^k - 1)]. *)
Lemma backoff_sum k : forall a, (1 <= a)%nat ->
  fold_right Z.add 0 (map backoff (seq a k)) = 1000 * 2 ^ (Z.of_nat a - 1) * (2 ^ Z.of_nat k - 1).
Proof.
  induction k as [|k IH]; intros a Ha; cbn [seq map fold_right]; [lia|].
  rewrite IH by lia. unfold backoff.
  replace (Z.of_nat (S a) - 1) with (Z.succ (Z.of_nat a - 1)) by lia.
  replace (Z.of_nat (S k)) with (Z.succ (Z.of_nat k)) by lia.
  rewrite !Z.pow_succ_r by lia. ring.
Qed.

Lemma all_fail_run tr n :
  (forall k, exists e, executeRequest (tr k) = inl e) -> (1 <= n)%nat ->
  run_attempts (executeWithRetry tr n) = seq 1 n /\
  run_delays (executeWithRetry tr n) = map backoff (seq 1 (n - 1)) /\
  exists e, run_outcome (executeWithRetry tr n) = inl (Some e).
Proof.
  intros Hf Hn. unfold executeWithRetry.
  destruct (retry_from_shape tr n n 1 None) as [m [Hm [Ha Hd]]]; [lia|exact Hn|].
  assert (Hout : exists le, run_outcome (retry_from tr n 1 n None) = inl le).
  { destruct (run_outcome (retry_from tr n 1 n None)) as [le|r] eqn:E; [eauto|].
    apply retry_from_success in E as [k [_ [Hr _]]]. destruct (Hf k) as [e He]; congruence. }
  destruct Hout as [le Hle].
  destruct (retry_from_failure tr n n 1 None le Hn Hle) as [_ [e [-> _]]].
  rewrite (HttpProofs.retry_from_all_fail tr n Hf n 1%nat None).
  assert (m = n) as ->.
  { rewrite (HttpProofs.retry_from_all_fail tr n Hf n 1%nat None) in Ha.
    apply (f_equal (@List.length nat)) in Ha. rewrite !length_seq in Ha. lia. }
  split; [reflexivity|split; [exact Hd|eauto]].
Qed.

Lemma fetch_from_all_fail call maxR f : forall a last,
  (forall i, exists le, run_outcome (call i) = inl le) ->
  (a + f = S maxR)%nat -> (1 <= a)%nat ->
  fr_runs (fetch_from call maxR a f last) = map call (seq a f) /\
  fr_delays (fetch_from call maxR a f last) = map backoff (seq a (f - 1)) /\
  (1 <= f -> exists le, fr_outcome (fetch_from call maxR a f last) = inl (Some (GetFailed le)))%nat.
Proof.
  induction f as [|f IH]; intros a last Hc Hs Ha; simpl.
  - split; [reflexivity|split; [reflexivity|intros; lia]].
  - destruct (Hc a) as [le Hle]. rewrite Hle.
    destruct (Nat.eqb_spec a maxR) as [->|Hne].
    + assert (f = 0%nat) as -> by lia. simpl.
      split; [reflexivity|split; [reflexivity|eauto]].
    + destruct (IH (S a) (Some (GetFailed le)) Hc) as [R [D O]]; [lia|lia|].
      simpl. rewrite R, D. split; [reflexivity|].
      destruct f as [|f]; [lia|]. simpl. rewrite Nat.sub_0_r.
      split; [reflexivity|]. intros _. apply O. lia.
Qed.

Lemma fold_right_add_init (l : list Z) i : fold_right Z.add i l = fold_right Z.add 0 l + i.
Proof. induction l as [|x l IH]; simpl; [lia|rewrite IH; lia]. Qed.

Lemma sum_flat_map {A} (f : A -> list Z) l :
  fold_right Z.add 0 (flat_map f l) = fold_right Z.add 0 (map (fun x => fold_right Z.add 0 (f x)) l).
Proof.
  induction l as [|x l IH]; simpl; [reflexivity|].
  rewrite fold_right_app, fold_right_add_init, IH. lia.
Qed.

(** ** X5: [fetchWithRetry] on top of [get]

    When every transport attempt fails, one page fetch of the service
    ([fetchWithRetry] with its three attempts, each a [get] with the
    client's [n] attempts) makes [3 * n] transport attempts and sleeps
    [3 * 1000 * (2^(n-1) - 1) + 3000] ms in all before it fails; with
    the production client ([n] = 3) that is 9 attempts and 12 s. *)
Theorem serviceFetch_all_fail (ctor_retries : option nat) (tr : nat -> nat -> Outcome) :
  (forall i k, exists e, executeRequest (tr i k) = inl e) ->
  let n := base_retries ctor_retries in
  let fr := serviceFetch ctor_retries tr in
  transport_attempts fr = (3 * n)%nat /\
  total_sleep fr = 3 * (1000 * (2 ^ (Z.of_nat n - 1) - 1)) + 3000 /\
  exists le, fr_outcome fr = inl (Some (GetFailed le)).
Proof.
  intros Hf n fr.
  assert (Hn : (1 <= n)%nat) by (apply or_retries_pos; lia).
  assert (Hrun : forall i, run_attempts (get ctor_retries None (tr i)) = seq 1 n /\
                  run_delays (get ctor_retries None (tr i)) = map backoff (seq 1 (n - 1)) /\
                  exists e, run_outcome (get ctor_retries None (tr i)) = inl (Some e)).
  { intros i. apply all_fail_run; [apply Hf|exact Hn]. }
  destruct (fetch_from_all_fail (fun i => get ctor_retries None (tr i)) 3 3 1 None)
    as [R [D O]]; [intros i; destruct (Hrun i) as [_ [_ [e He]]]; eauto|lia|lia|].
  unfold fr, serviceFetch, fetchWithRetry, transport_attempts, total_sleep.
  rewrite R, D. split; [|split].
  - simpl. rewrite !(proj1 (Hrun _)), !length_seq. lia.
  - rewrite sum_flat_map. cbn [seq map fold_right].
    rewrite !(proj1 (proj2 (Hrun _))), backoff_sum by lia.
    replace (Z.of_nat (n - 1)) with (Z.of_nat n - 1) by lia.
    assert (E : fold_right Z.add 0 (map backoff (seq 1 (3 - 1))) = 3000) by reflexivity.
    rewrite E. lia.
  - apply O. lia.
Qed.

(** A transport whose every call is refused. *)
Definition refused (i k : nat) : Outcome := Reject.

Lemma serviceFetch_all_fail_witness :
  (forall i k, exists e, executeRequest (refused i k) = inl e) /\
  transport_attempts (serviceFetch (Some 3%nat) refused) = 9%nat /\
  total_sleep (serviceFetch (Some 3%nat) refused) = 12000.
Proof.
  assert (H : forall i k, exists e, executeRequest (refused i k) = inl e)
    by (intros; simpl; eauto).
  destruct (serviceFetch_all_fail (Some 3%nat) refused H) as [A [S _]].
  split; [exact H|split].
  - rewrite A. reflexivity.
  - rewrite S. reflexivity.
Defined.

End ClientProofs.

(* ------------------------------------------------------------------ *)
(** ** The matcher and global replacement *)
(* ------------------------------------------------------------------ *)

Module RegexProofs.
Import JS Regex.

(** A match only consumes input: the continuation receives a suffix. *)
Lemma mt_suffix total r : forall s g k x,
  mt total r s g k = Some x ->
  exists p s' g', s = p ++ s' /\ k s' g' = Some x.
Proof.
  induction r as [|q|r1 IH1 r2 IH2|r1 IH1 r2 IH2|q|r1 IH1|r1 IH1| | |];
    intros s g k x H; simpl in H.
  - exists [], s, g; auto.
  - destruct s as [|c s]; [discriminate|]. destruct (q c); [|discriminate].
    exists [c], s, g; auto.
  - destruct (IH1 _ _ _ _ H) as [p1 [s1 [g1 [E1 H1]]]].
    destruct (IH2 _ _ _ _ H1) as [p2 [s2 [g2 [E2 H2]]]].
    exists (p1 ++ p2), s2, g2. split; [subst; apply app_assoc|exact H2].
  - destruct (mt total r1 s g k) eqn:E; [injection H as <-; eauto|eauto].
  - revert x H. induction s as [|c s IHs]; intros x H.
    + exists [], [], g; auto.
    + destruct (q c).
      * destruct ((fix star (s0 : ustr) : option res :=
                    match s0 with
                    | [] => k [] g
                    | c0 :: s' => if q c0 then match star s' with
                                               | Some x0 => Some x0
                                               | None => k s0 g end
                                  else k s0 g
                    end) s) eqn:E.
        -- injection H as <-. destruct (IHs _ eq_refl) as [p [s' [g' [E' H']]]].
           exists (c :: p), s', g'. split; [simpl; congruence|exact H'].
        -- exists [], (c :: s), g; auto.
      * exists [], (c :: s), g; auto.
  - destruct (mt total r1 s g k) eqn:E; [injection H as <-; eauto|].
    exists [], s, g; auto.
  - destruct (IH1 _ _ _ _ H) as [p [s' [g' [E H']]]]. eauto.
  - destruct (Nat.eqb (List.length s) total); [|discriminate]. exists [], s, g; auto.
  - destruct s; [|discriminate]. exists [], [], g; auto.
  - destruct s as [|c s]; [exists [], [], g; auto|].
    destruct (is_word c); [discriminate|]. exists [], (c :: s), g; auto.
Qed.

Lemma match_at_suffix total r s s' g :
  match_at total r s = Some (s', g) -> exists p, s = p ++ s'.
Proof.
  unfold match_at. intros H.
  destruct (mt_suffix _ _ _ _ _ _ H) as [p [s1 [g1 [E H1]]]].
  injection H1 as -> _. eauto.
Qed.

Lemma match_at_length total r s s' g :
  match_at total r s = Some (s', g) -> (List.length s' <= List.length s)%nat.
Proof.
  intros H. destruct (match_at_suffix _ _ _ _ _ H) as [p ->].
  rewrite length_app. lia.
Qed.

(** Every character of a global replacement comes from the input or from
    the replacement text. *)
Lemma replace_from_chars fuel total r rep : forall s c,
  In c (replace_from fuel total r rep s) -> In c s \/ In c rep.
Proof.
  induction fuel as [|f IH]; intros s c H; simpl in H; [auto|].
  destruct (match_at total r s) as [[s' g]|] eqn:M.
  - destruct (Nat.eqb (List.length s') (List.length s)).
    + destruct s as [|c0 t]; [auto|].
      apply in_app_iff in H as [H|[<-|H]]; [auto|simpl; auto|].
      destruct (IH _ _ H) as [H'|H']; [left; simpl; auto|auto].
    + apply in_app_iff in H as [H|H]; [auto|].
      destruct (IH _ _ H) as [H'|H']; [|auto].
      destruct (match_at_suffix _ _ _ _ _ M) as [p ->]. left; apply in_app_iff; auto.
  - destruct s as [|c0 t]; [contradiction|].
    destruct H as [<-|H]; [simpl; auto|].
    destruct (IH _ _ H) as [H'|H']; [left; simpl; auto|auto].
Qed.

Lemma replace_all_chars r rep s c :
  In c (replace_all r rep s) -> In c s \/ In c rep.
Proof. apply replace_from_chars. Qed.

Section Removal.
Variable p : Z -> bool.
Variable total : nat.
Variable r : re.
Variable rep : ustr.
(** Every character of class [p] starts a non-empty match. *)
Hypothesis Hmatch : forall c t, p c = true ->
  exists s' g, match_at total r (c :: t) = Some (s', g) /\ (List.length s' <= List.length t)%nat.
Hypothesis Hrep : forall c, In c rep -> p c = false.

Lemma replace_from_removes fuel : forall s,
  (List.length s < fuel)%nat ->
  forall c, In c (replace_from fuel total r rep s) -> p c = false.
Proof.
  induction fuel as [|f IH]; intros s Hs c H; [lia|]. simpl in H.
  destruct (match_at total r s) as [[s' g]|] eqn:M.
  - destruct (Nat.eqb_spec (List.length s') (List.length s)) as [Heq|Hne].
    + destruct s as [|c0 t]; [auto|].
      apply in_app_iff in H as [H|[<-|H]]; [auto| |].
      * destruct (p c0) eqn:Pc; [|reflexivity].
        destruct (Hmatch c0 t Pc) as [s2 [g2 [M2 L2]]]. rewrite M in M2.
        injection M2 as -> _. simpl in Heq. lia.
      * apply (IH t); [simpl in Hs; lia|exact H].
    + apply in_app_iff in H as [H|H]; [auto|].
      apply (IH s'); [|exact H].
      pose proof (match_at_length _ _ _ _ _ M). lia.
  - destruct s as [|c0 t]; [contradiction|].
    destruct H as [->|H].
    + destruct (p c) eqn:Pc; [|reflexivity].
      destruct (Hmatch c t Pc) as [s2 [g2 [M2 _]]]. congruence.
    + apply (IH t); [simpl in Hs; lia|exact H].
Qed.

End Removal.

Lemma replace_all_removes (p : Z -> bool) r rep s :
  (forall c t, p c = true -> exists s' g,
     match_at (List.length s) r (c :: t) = Some (s', g) /\ (List.length s' <= List.length t)%nat) ->
  (forall c, In c rep -> p c = false) ->
  forall c, In c (replace_all r rep s) -> p c = false.
Proof.
  intros Hm Hr c H. eapply replace_from_removes; [exact Hm|exact Hr| |exact H]. lia.
Qed.

(** A greedy run of [q] under a continuation that always succeeds. *)
Lemma star_some total q s g :
  exists s' g', mt total (Star q) s g (fun s' g' => Some (s', g')) = Some (s', g').
Proof.
  simpl. induction s as [|c s IHs]; [eauto|].
  destruct (q c); [|eauto]. destruct IHs as [s' [g' E]]. rewrite E. eauto.
Qed.

Lemma chr_matches total q c t :
  q c = true -> match_at total (Chr q) (c :: t) = Some (t, None).
Proof. intros H. unfold match_at; simpl. now rewrite H. Qed.

Lemma plus_matches total q c t :
  q c = true -> exists s' g, match_at total (Plus q) (c :: t) = Some (s', g) /\
                             (List.length s' <= List.length t)%nat.
Proof.
  intros H. unfold match_at, Plus. cbn [mt]. rewrite H.
  destruct (star_some total q t None) as [s' [g' E]]. exists s', g'. split; [exact E|].
  apply (match_at_length total (Star q) t s' g'). exact E.
Qed.

End RegexProofs.

(* ------------------------------------------------------------------ *)
(** ** TextUtils *)
(* ------------------------------------------------------------------ *)

Module TextProofs.
Import JS Regex Text RegexProofs.

Lemma ltrim_suffix s : exists p, s = p ++ ltrim s.
Proof.
  induction s as [|c s IH]; simpl; [exists []; reflexivity|].
  destruct (is_space c); [destruct IH as [p E]; exists (c :: p); simpl; congruence|].
  exists []; reflexivity.
Qed.

Lemma ltrim_hd s : is_space (hd 0 (ltrim s)) = false.
Proof.
  induction s as [|c s IH]; simpl; [reflexivity|].
  destruct (is_space c) eqn:E; [exact IH|exact E].
Qed.

Lemma hd_rev (d : Z) l : hd d (rev l) = last l d.
Proof.
  induction l as [|x l _] using rev_ind; [reflexivity|].
  rewrite rev_app_distr, last_last. reflexivity.
Qed.

Lemma last_rev (d : Z) l : last (rev l) d = hd d l.
Proof. destruct l as [|x l]; [reflexivity|]. simpl. apply last_last. Qed.

Lemma last_app_ne (d : Z) p q : q <> [] -> last (p ++ q) d = last q d.
Proof.
  intros Hq. induction p as [|x p IH]; [reflexivity|].
  rewrite <- app_comm_cons. simpl. rewrite IH.
  destruct (p ++ q) eqn:E; [apply app_eq_nil in E as [_ ->]; contradiction|reflexivity].
Qed.

(** The result of [trim] neither starts nor ends with white space. *)
Lemma trim_ends s : is_space (hd 0 (trim s)) = false /\ is_space (last (trim s) 0) = false.
Proof.
  unfold trim. split.
  - rewrite hd_rev.
    destruct (ltrim_suffix (rev (ltrim s))) as [p E].
    destruct (ltrim (rev (ltrim s))) as [|x l] eqn:L; [reflexivity|].
    rewrite <- (last_app_ne 0 p (x :: l)) by discriminate. rewrite <- E.
    rewrite last_rev. apply ltrim_hd.
  - rewrite last_rev. apply ltrim_hd.
Qed.

Lemma ltrim_chars s c : In c (ltrim s) -> In c s.
Proof.
  intros H. destruct (ltrim_suffix s) as [p E]. rewrite E. apply in_app_iff; auto.
Qed.

Lemma trim_chars s c : In c (trim s) -> In c s.
Proof.
  unfold trim. intros H. apply in_rev, ltrim_chars, in_rev, ltrim_chars in H. exact H.
Qed.

Lemma clean_chars s c : In c (clean s) -> In c s \/ c = 32 \/ c = 10.
Proof.
  destruct s as [|c0 t]; [contradiction|]. unfold clean. intros H.
  apply trim_chars, replace_all_chars in H as [H|[<-|[]]]; [|auto].
  apply replace_all_chars in H as [H|[<-|[]]]; auto.
Qed.

Lemma clean_ends s : is_space (hd 0 (clean s)) = false /\ is_space (last (clean s) 0) = false.
Proof. destruct s; [split; reflexivity|apply trim_ends]. Qed.

Lemma cleanAuthor_chars s c : In c (cleanAuthor s) -> In c s \/ c = 32 \/ c = 10.
Proof.
  destruct s as [|c0 t]; [contradiction|]. unfold cleanAuthor. intros H.
  apply trim_chars, replace_all_chars in H as [H|[]].
  apply replace_all_chars in H as [H|[]]. apply clean_chars, H.
Qed.

Lemma cleanAuthor_ends s :
  is_space (hd 0 (cleanAuthor s)) = false /\ is_space (last (cleanAuthor s) 0) = false.
Proof. destruct s; [split; reflexivity|apply trim_ends]. Qed.

Lemma split_class_chars p s : forall x c,
  In x (split_class p s) -> In c x -> p c = false /\ In c s.
Proof.
  induction s as [|d r IH]; intros x c Hx Hc; simpl in Hx.
  - destruct Hx as [<-|[]]; contradiction.
  - destruct (p d) eqn:Pd.
    + destruct Hx as [<-|Hx]; [contradiction|].
      destruct (IH _ _ Hx Hc) as [H1 H2]; split; [exact H1|right; exact H2].
    + destruct (split_class p r) as [|x0 xs] eqn:E.
      * destruct Hx as [<-|[]]. destruct Hc as [<-|[]]. split; [exact Pd|left; reflexivity].
      * destruct Hx as [<-|Hx].
        -- destruct Hc as [<-|Hc]; [split; [exact Pd|left; reflexivity]|].
           destruct (IH x0 c) as [H1 H2]; [left; reflexivity|exact Hc|].
           split; [exact H1|right; exact H2].
        -- destruct (IH x c) as [H1 H2]; [right; exact Hx|exact Hc|].
           split; [exact H1|right; exact H2].
Qed.

Lemma in_firstn {A} n (l : list A) x : In x (firstn n l) -> In x l.
Proof.
  intros H. rewrite <- (firstn_skipn n l). apply in_app_iff; auto.
Qed.

(** ** X6: [parseAuthors]

    [parseAuthors] returns at most five names; each is 1 to 49 UTF-16
    code units long, contains none of the separators (comma, semicolon,
    vertical bar, middle dot), and neither starts nor ends with white
    space. *)
Theorem parseAuthors_shape (s : ustr) :
  let xs := parseAuthors s in
  (List.length xs <= 5)%nat /\
  Forall (fun a => (0 < JS.length a < 50)%nat /\
                   (forall c, In c a -> is_author_sep c = false) /\
                   is_space (hd 0 a) = false /\ is_space (last a 0) = false) xs.
Proof.
  intros xs. unfold xs, parseAuthors. destruct s as [|c0 t]; [split; [simpl; lia|constructor]|].
  split; [apply firstn_le_length|].
  apply Forall_forall. intros a Ha. apply in_firstn, filter_In in Ha as [Ha Hl].
  apply andb_prop in Hl as [H1 H2]. apply Nat.ltb_lt in H1, H2.
  apply in_map_iff in Ha as [piece [<- Hp]].
  split; [lia|]. split; [|apply cleanAuthor_ends].
  intros c Hc. apply cleanAuthor_chars in Hc as [Hc|[->| ->]]; [|reflexivity|reflexivity].
  exact (proj1 (split_class_chars _ _ _ _ Hp Hc)).
Qed.

Lemma ustr_eqb_false a b : ustr_eqb a b = false -> a <> b.
Proof. unfold ustr_eqb. destruct (list_eq_dec Z.eq_dec a b); congruence. Qed.

(** ** X7: [parseCategories]

    [parseCategories] returns at most ten categories; each is 1 to 49
    UTF-16 code units long, is none of 홈, 전체 and 도서, contains none of
    the separators, and neither starts nor ends with white space. *)
Theorem parseCategories_shape (s : ustr) :
  let xs := parseCategories s in
  (List.length xs <= 10)%nat /\
  Forall (fun a => (0 < JS.length a < 50)%nat /\ a <> hom /\ a <> jeonche /\ a <> doseo /\
                   (forall c, In c a -> is_category_sep c = false) /\
                   is_space (hd 0 a) = false /\ is_space (last a 0) = false) xs.
Proof.
  intros xs. unfold xs, parseCategories. destruct s as [|c0 t]; [split; [simpl; lia|constructor]|].
  split; [apply firstn_le_length|].
  apply Forall_forall. intros a Ha. apply in_firstn, filter_In in Ha as [Ha Hl].
  apply andb_prop in Hl as [Hl H5]. apply andb_prop in Hl as [Hl H4].
  apply andb_prop in Hl as [Hl H3]. apply andb_prop in Hl as [H1 H2].
  apply Nat.ltb_lt in H1, H2. apply negb_true_iff, ustr_eqb_false in H3, H4, H5.
  apply in_map_iff in Ha as [piece [<- Hp]].
  split; [lia|]. do 3 (split; [assumption|]). split; [|apply clean_ends].
  intros c Hc. apply clean_chars in Hc as [Hc|[->| ->]]; [|reflexivity|reflexivity].
  exact (proj1 (split_class_chars _ _ _ _ Hp Hc)).
Qed.

(** ** X8: [truncate] within its bound

    A text no longer than [maxLength] is returned unchanged. A longer one,
    when [maxLength] is at least the suffix's length, becomes its first
    [maxLength - |suffix|] code units followed by the suffix: exactly
    [maxLength] code units. *)
Theorem truncate_bound (text : list Z) (maxLength : Z) (suffix : list Z) :
  (Z.of_nat (List.length text) <= maxLength -> truncate text maxLength suffix = text) /\
  (Z.of_nat (List.length suffix) <= maxLength < Z.of_nat (List.length text) ->
   truncate text maxLength suffix =
     firstn (Z.to_nat (maxLength - Z.of_nat (List.length suffix))) text ++ suffix /\
   Z.of_nat (List.length (truncate text maxLength suffix)) = maxLength).
Proof.
  split.
  - intros H. unfold truncate. destruct text as [|c t]; [reflexivity|].
    replace (Z.of_nat (List.length (c :: t)) <=? maxLength) with true
      by (symmetry; apply Z.leb_le; exact H). reflexivity.
  - intros H. unfold truncate, slice0. destruct text as [|c t]; [simpl in H; lia|].
    replace (Z.of_nat (List.length (c :: t)) <=? maxLength) with false
      by (symmetry; apply Z.leb_gt; lia).
    replace (maxLength - Z.of_nat (List.length suffix) <? 0) with false
      by (symmetry; apply Z.ltb_ge; lia).
    rewrite Z.min_l by lia. split; [reflexivity|].
    rewrite length_app, length_firstn, Nat.min_l by lia. lia.
Qed.

(** ** X9: [truncate] below the suffix's length

    With the default suffix `...` and a [maxLength] of 0, 1 or 2, a text
    longer than [maxLength] comes back with [max(length + maxLength - 3, 0) + 3]
    code units: more than [maxLength], and for a text of 3 or more code
    units at least as long as the text itself (the negative slice end
    counts from the end). *)
Theorem truncate_short_limit (text : list Z) (maxLength : Z) :
  0 <= maxLength < 3 -> maxLength < Z.of_nat (List.length text) ->
  Z.of_nat (List.length (truncate text maxLength ellipsis)) =
    Z.max (Z.of_nat (List.length text) + maxLength - 3) 0 + 3 /\
  maxLength < Z.of_nat (List.length (truncate text maxLength ellipsis)).
Proof.
  intros Hm Hl.
  assert (E : Z.of_nat (List.length (truncate text maxLength ellipsis)) =
              Z.max (Z.of_nat (List.length text) + maxLength - 3) 0 + 3).
  { unfold truncate, slice0. destruct text as [|c t]; [simpl in Hl; lia|].
    replace (Z.of_nat (List.length (c :: t)) <=? maxLength) with false
      by (symmetry; apply Z.leb_gt; lia).
    change (List.length ellipsis) with 3%nat.
    replace (maxLength - Z.of_nat 3 <? 0) with true by (symmetry; apply Z.ltb_lt; lia).
    rewrite length_app, length_firstn, Nat.min_l by lia.
    rewrite Nat2Z.inj_add, Z2Nat.id by lia.
    replace (Z.of_nat (List.length ellipsis)) with 3 by reflexivity. lia. }
  split; [exact E|]. rewrite E. lia.
Qed.

Lemma truncate_short_limit_witness :
  (0 <= 1 < 3 /\ 1 < Z.of_nat (List.length [97; 98; 99; 100; 101; 102; 103; 104; 105; 106])) /\
  Z.of_nat (List.length (truncate [97; 98; 99; 100; 101; 102; 103; 104; 105; 106] 1 ellipsis)) = 11.
Proof.
  assert (H : 0 <= 1 < 3 /\ 1 < Z.of_nat (List.length [97; 98; 99; 100; 101; 102; 103; 104; 105; 106]))
    by (simpl; lia).
  split; [exact H|].
  rewrite (proj1 (truncate_short_limit [97; 98; 99; 100; 101; 102; 103; 104; 105; 106] 1
                    (proj1 H) (proj2 H))).
  reflexivity.
Defined.

Lemma slice0_chars s e c : In c (slice0 s e) -> In c s.
Proof. apply in_firstn. Qed.

Lemma slice0_100 s : (List.length (slice0 s 100) <= 100)%nat.
Proof.
  unfold slice0. rewrite length_firstn.
  replace (100 <? 0) with false by reflexivity. lia.
Qed.

(** The first two replacements of [toSafeFileName]: no unsafe character
    and no white space is left. *)
Lemma safe_stage1 s c :
  In c (replace_all (Chr is_unsafe) [95] s) -> is_unsafe c = false.
Proof.
  apply replace_all_removes.
  - intros c0 t H. exists t, None. split; [now apply chr_matches|lia].
  - intros c0 [<-|[]]. reflexivity.
Qed.

Lemma safe_stage2 s c :
  In c (replace_all (Plus is_space) [95] (replace_all (Chr is_unsafe) [95] s)) ->
  is_unsafe c = false /\ is_space c = false.
Proof.
  intros H. split.
  - apply replace_all_chars in H as [H|[<-|[]]]; [exact (safe_stage1 _ _ H)|reflexivity].
  - revert H. apply replace_all_removes.
    + intros c0 t Hc. now apply plus_matches.
    + intros c0 [<-|[]]. reflexivity.
Qed.

(** ** X10: [toSafeFileName] output

    The file name [toSafeFileName] returns has at most 100 code units and
    contains no white space and none of the characters backslash, slash,
    colon, star, question mark, double quote, less-than, greater-than and
    vertical bar. *)
Theorem toSafeFileName_safe (text : list Z) :
  (List.length (toSafeFileName text) <= 100)%nat /\
  forall c, In c (toSafeFileName text) -> is_unsafe c = false /\ is_space c = false.
Proof.
  destruct text as [|c0 t].
  - split; [simpl; lia|]. intros c H. simpl in H.
    repeat (destruct H as [<-|H]; [split; reflexivity|]). contradiction.
  - split; [apply slice0_100|]. intros c H. unfold toSafeFileName in H.
    apply slice0_chars, replace_all_chars in H as [H|[]].
    apply replace_all_chars in H as [H|[<-|[]]]; [|split; reflexivity].
    exact (safe_stage2 _ _ H).
Qed.

Lemma star_all total q t g k y :
  k [] g = Some y -> (forall c, In c t -> q c = true) -> mt total (Star q) t g k = Some y.
Proof.
  intros Hk. simpl. induction t as [|c t IH]; intros Ht; [exact Hk|].
  rewrite (Ht c (or_introl eq_refl)). rewrite IH; [reflexivity|].
  intros c' Hc'; apply Ht; right; exact Hc'.
Qed.

Lemma edge_all_underscores s :
  (forall c, In c s -> c = 95) -> replace_all edge_underscores_re [] s = [].
Proof.
  intros Hs. destruct s as [|c t]; [reflexivity|].
  assert (Hc : c = 95) by (apply Hs; left; reflexivity).
  set (n := List.length (c :: t)).
  assert (Hstar : mt n (Star (ceqb 95)) t None (fun s' g' => Some (s', g')) = Some ([], None)).
  { apply star_all; [reflexivity|]. intros c' Hc'. rewrite (Hs c' (or_intror Hc')). reflexivity. }
  assert (M : match_at n edge_underscores_re (c :: t) = Some ([], None)).
  { change (match_at n edge_underscores_re (c :: t)) with
      (match (if Nat.eqb (List.length (c :: t)) n
              then (if ceqb 95 c then mt n (Star (ceqb 95)) t None (fun s' g' => Some (s', g'))
                    else None)
              else None) with
       | Some x => Some x
       | None => mt n (Seq (Plus (ceqb 95)) Eol) (c :: t) None (fun s' g' => Some (s', g'))
       end).
    replace (Nat.eqb (List.length (c :: t)) n) with true by (symmetry; apply Nat.eqb_refl).
    rewrite Hc at 1. change (ceqb 95 95) with true. cbv iota. rewrite Hstar. reflexivity. }
  unfold replace_all. fold n.
  change (replace_from (S n) n edge_underscores_re [] (c :: t)) with
    (match match_at n edge_underscores_re (c :: t) with
     | Some (s', _) =>
         if Nat.eqb (List.length s') (List.length (c :: t))
         then [] ++ c :: replace_from n n edge_underscores_re [] t
         else [] ++ replace_from n n edge_underscores_re [] s'
     | None => c :: replace_from n n edge_underscores_re [] t
     end).
  rewrite M. unfold n. simpl. reflexivity.
Qed.

(** ** X11: [toSafeFileName] can return an empty name

    A non-empty text made only of unsafe characters, white space and
    underscores gives the empty file name, while the empty text gives
    `untitled`. *)
Theorem toSafeFileName_empty_result (text : list Z) :
  text <> [] ->
  (forall c, In c text -> is_unsafe c = true \/ is_space c = true \/ c = 95) ->
  toSafeFileName text = [] /\ toSafeFileName [] = untitled.
Proof.
  intros Hne Hj. split; [|reflexivity]. destruct text as [|c0 t]; [contradiction|].
  unfold toSafeFileName.
  set (s0 := clean (c0 :: t)).
  set (s1 := replace_all (Chr is_unsafe) [95] s0).
  set (s2 := replace_all (Plus is_space) [95] s1).
  set (s3 := replace_all underscores2_re [95] s2).
  assert (H0 : forall c, In c s0 -> is_unsafe c = true \/ is_space c = true \/ c = 95).
  { intros c Hc. apply clean_chars in Hc as [Hc|[->| ->]]; [apply Hj, Hc|right; left; reflexivity|right; left; reflexivity]. }
  assert (H1 : forall c, In c s1 -> is_space c = true \/ c = 95).
  { intros c Hc. pose proof (safe_stage1 _ _ Hc) as Hu.
    apply replace_all_chars in Hc as [Hc|[<-|[]]]; [|right; reflexivity].
    destruct (H0 c Hc) as [H|H]; [congruence|exact H]. }
  assert (H2 : forall c, In c s2 -> c = 95).
  { intros c Hc. pose proof (proj2 (safe_stage2 _ _ Hc)) as Hs.
    apply replace_all_chars in Hc as [Hc|[<-|[]]]; [|reflexivity].
    destruct (H1 c Hc) as [H|H]; [congruence|exact H]. }
  assert (H3 : forall c, In c s3 -> c = 95).
  { intros c Hc. apply replace_all_chars in Hc as [Hc|[<-|[]]]; [apply H2, Hc|reflexivity]. }
  rewrite (edge_all_underscores s3 H3). reflexivity.
Qed.

Lemma toSafeFileName_empty_result_witness :
  ([63; 32; 95] <> [] /\
   (forall c, In c [63; 32; 95] -> is_unsafe c = true \/ is_space c = true \/ c = 95)) /\
  toSafeFileName [63; 32; 95] = [].
Proof.
  assert (H : [63; 32; 95] <> [] /\
              (forall c, In c [63; 32; 95] -> is_unsafe c = true \/ is_space c = true \/ c = 95)).
  { split; [discriminate|]. intros c [<-|[<-|[<-|[]]]]; [left|right; left|right; right]; reflexivity. }
  split; [exact H|]. exact (proj1 (toSafeFileName_empty_result [63; 32; 95] (proj1 H) (proj2 H))).
Defined.

End TextProofs.

(* ------------------------------------------------------------------ *)
(** ** normalizeISBN and the page count *)
(* ------------------------------------------------------------------ *)

Module IsbnPagesProofs.
Import JS Regex Books Detail.

Lemma isbn_char_ok c : is_digit c = true \/ c = 88 ->
  (is_digit c || ceqb c 88 || ceqb c 120) = true /\ (if ceqb c 120 then 88 else c) = c.
Proof.
  intros [H| ->]; [|split; reflexivity].
  rewrite H. split; [reflexivity|].
  unfold is_digit, in_range in H. apply andb_prop in H as [_ H2]. apply Z.leb_le in H2.
  unfold ceqb. replace (c =? 120) with false by (symmetry; apply Z.eqb_neq; lia). reflexivity.
Qed.

(** ** X12: [normalizeISBN]

    When [normalizeISBN] returns a value, it has 10 or 13 characters,
    each a digit or an upper-case X, and normalising it again returns it
    unchanged. *)
Theorem normalizeISBN_shape (s x : ustr) :
  normalizeISBN s = Some x ->
  (List.length x = 10%nat \/ List.length x = 13%nat) /\
  (forall c, In c x -> is_digit c = true \/ c = 88) /\
  normalizeISBN x = Some x.
Proof.
  unfold normalizeISBN at 1. destruct s as [|c0 t]; [discriminate|].
  set (cleaned := map (fun c => if ceqb c 120 then 88 else c)
                    (filter (fun c => is_digit c || ceqb c 88 || ceqb c 120) (c0 :: t))).
  destruct ((List.length cleaned =? 10)%nat || (List.length cleaned =? 13)%nat) eqn:L;
    [|discriminate].
  intros H; injection H as <-.
  assert (Hc : forall c, In c cleaned -> is_digit c = true \/ c = 88).
  { intros c Hc. apply in_map_iff in Hc as [c' [<- Hc']]. apply filter_In in Hc' as [_ Hf].
    destruct (ceqb c' 120) eqn:E; [right; reflexivity|].
    apply orb_prop in Hf as [Hf|Hf]; [apply orb_prop in Hf as [Hf|Hf]|].
    - left; exact Hf.
    - right. unfold ceqb in Hf. apply Z.eqb_eq in Hf. exact Hf.
    - congruence. }
  split; [apply orb_prop in L as [L|L]; apply Nat.eqb_eq in L; auto|].
  split; [exact Hc|].
  assert (Hfix : map (fun c => if ceqb c 120 then 88 else c)
                   (filter (fun c => is_digit c || ceqb c 88 || ceqb c 120) cleaned) = cleaned).
  { clearbody cleaned. clear L. revert Hc.
    induction cleaned as [|c r IH]; intros Hc; [reflexivity|].
    destruct (isbn_char_ok c (Hc c (or_introl eq_refl))) as [F M].
    cbn [filter map]. rewrite F. cbn [map]. rewrite M. f_equal.
    apply IH. intros c' H'; apply Hc; right; exact H'. }
  clearbody cleaned. unfold normalizeISBN. destruct cleaned as [|c r]; [discriminate|].
  cbv zeta. rewrite Hfix, L. reflexivity.
Qed.

(** `0-306-40615-2` *)
Definition isbn10_text : ustr := [48; 45; 51; 48; 54; 45; 52; 48; 54; 49; 53; 45; 50].

Lemma normalizeISBN_shape_witness :
  normalizeISBN isbn10_text = Some [48; 51; 48; 54; 52; 48; 54; 49; 53; 50] /\
  normalizeISBN [48; 51; 48; 54; 52; 48; 54; 49; 53; 50] = Some [48; 51; 48; 54; 52; 48; 54; 49; 53; 50].
Proof.
  assert (H : normalizeISBN isbn10_text = Some [48; 51; 48; 54; 52; 48; 54; 49; 53; 50])
    by (vm_compute; reflexivity).
  split; [exact H|]. exact (proj2 (proj2 (normalizeISBN_shape _ _ H))).
Defined.

Lemma extractPagesText_range text n :
  extractPagesText text = Some n -> 0 < n < 5000.
Proof.
  unfold extractPagesText. destruct text as [|c t]; [discriminate|].
  generalize pagePatterns. intros ps. induction ps as [|p ps IH]; [discriminate|].
  destruct (exec p (c :: t)) as [[pre [rest [[|d m]|]]]|]; try exact IH.
  destruct ((0 <? parseInt (d :: m)) && (parseInt (d :: m) <? 5000)) eqn:B; [|exact IH].
  intros H; injection H as <-. apply andb_prop in B as [B1 B2].
  apply Z.ltb_lt in B1. apply Z.ltb_lt in B2. lia.
Qed.

Lemma first_pages_range f ts n : first_pages f ts = Some n -> 0 < n < 5000.
Proof.
  induction ts as [|t ts IH]; simpl; [discriminate|].
  destruct (f t); [|exact IH].
  destruct (extractPagesText t) eqn:E; [intros H; injection H as <-; exact (extractPagesText_range _ _ E)|exact IH].
Qed.

(** ** X13: the page count

    Every page count the four-stage [extractPages] cascade returns (from
    the selector texts, the detail containers, the label candidates or
    the body text) lies strictly between 0 and 5000. *)
Theorem extractPages_range (pt : PageTexts) (n : Z) :
  extractPages pt = Some n -> 0 < n < 5000.
Proof.
  unfold extractPages, first_of.
  destruct (first_pages _ (pt_selector pt)) eqn:E1; [intros H; injection H as <-; exact (first_pages_range _ _ _ E1)|].
  destruct (first_pages _ (pt_detail pt)) eqn:E2; [intros H; injection H as <-; exact (first_pages_range _ _ _ E2)|].
  destruct (first_pages _ (pt_label pt)) eqn:E3; [intros H; injection H as <-; exact (first_pages_range _ _ _ E3)|].
  apply extractPagesText_range.
Qed.

(** A page whose body says `344쪽`. *)
Definition body_344 : PageTexts :=
  {| pt_selector := []; pt_detail := []; pt_label := []; pt_body := [51; 52; 52; c_jjok] |}.

Lemma extractPages_range_witness :
  extractPages body_344 = Some 344 /\ 0 < 344 < 5000.
Proof.
  assert (H : extractPages body_344 = Some 344) by (vm_compute; reflexivity).
  split; [exact H|]. exact (extractPages_range body_344 344 H).
Defined.

End IsbnPagesProofs.

(* ------------------------------------------------------------------ *)
(** ** MemoryCache: round trip, expiry, capacity, distinct keys *)
(* ------------------------------------------------------------------ *)

From Stdlib Require Import Lqa.

Module CacheOpsProofs.
Import JS Cache CacheOps.

Section Generic.
Context {T : Type}.
Implicit Types (c : MemoryCache T) (k key : ustr).

Lemma key_eqb_spec a b : key_eqb a b = true <-> a = b.
Proof. unfold key_eqb. destruct (list_eq_dec Z.eq_dec a b); split; congruence. Qed.

Lemma key_eqb_refl a : key_eqb a a = true.
Proof. apply key_eqb_spec; reflexivity. Qed.

Lemma key_eqb_neq a b : a <> b -> key_eqb a b = false.
Proof. intros H. destruct (key_eqb a b) eqn:E; [apply key_eqb_spec in E; congruence|reflexivity]. Qed.

Ltac keq a b :=
  let E := fresh "E" in
  destruct (key_eqb a b) eqn:E; [apply key_eqb_spec in E; subst|].

Lemma find_app k c d :
  find k (c ++ d) = match find k c with Some e => Some e | None => find k d end.
Proof. induction c as [|p c IH]; simpl; [reflexivity|]. destruct (key_eqb (fst p) k); auto. Qed.

Lemma has_find k c : has k c = match find k c with Some _ => true | None => false end.
Proof. induction c as [|p c IH]; simpl; [reflexivity|]. destruct (key_eqb (fst p) k); auto. Qed.

Lemma find_delete_same k c : find k (delete k c) = None.
Proof.
  induction c as [|p c IH]; simpl; [reflexivity|].
  destruct (key_eqb (fst p) k) eqn:E; simpl; [exact IH|]. rewrite E. exact IH.
Qed.

Lemma find_delete_other k k' c : k' <> k -> find k' (delete k c) = find k' c.
Proof.
  intros Hne. induction c as [|p c IH]; simpl; [reflexivity|].
  destruct (key_eqb (fst p) k) eqn:E; simpl.
  - apply key_eqb_spec in E. rewrite E, (key_eqb_neq k k'); [exact IH|congruence].
  - rewrite IH. reflexivity.
Qed.

Lemma find_update_same k f c : find k (update k f c) = option_map f (find k c).
Proof.
  induction c as [|p c IH]; simpl; [reflexivity|].
  destruct (key_eqb (fst p) k) eqn:E; simpl; rewrite E; [reflexivity|exact IH].
Qed.

Lemma find_update_other k k' f c : k' <> k -> find k' (update k f c) = find k' c.
Proof.
  intros Hne. induction c as [|p c IH]; simpl; [reflexivity|].
  destruct (key_eqb (fst p) k) eqn:E; simpl.
  - apply key_eqb_spec in E. rewrite E, (key_eqb_neq k k'); [exact IH|congruence].
  - rewrite IH. reflexivity.
Qed.

(** What [set] leaves under its own key. *)
Lemma find_set_same maxSize now key v c :
  exists e, find key (set maxSize now key v c) = Some e /\ value e = v /\ timestamp e = now.
Proof.
  unfold set. destruct (has key c) eqn:H.
  - rewrite has_find in H. destruct (find key c) as [e0|] eqn:F; [|discriminate].
    assert (G : forall c', find key c' = Some e0 ->
      exists e, find key (map (fun p => if key_eqb (fst p) key then touch now v p else p) c') = Some e
                /\ value e = v /\ timestamp e = now).
    { induction c' as [|p c' IH]; simpl; [discriminate|].
      destruct (key_eqb (fst p) key) eqn:E; intros Hf; simpl.
      - unfold touch at 1. simpl. rewrite E. eexists; split; [reflexivity|split; reflexivity].
      - rewrite E. apply IH; exact Hf. }
    apply (G c F).
  - set (c1 := if (maxSize <=? Z.of_nat (List.length c))%Z then evictLeastRecentlyUsed now c else c).
    assert (N : find key c1 = None).
    { rewrite has_find in H. destruct (find key c) eqn:F; [discriminate|].
      unfold c1. destruct (maxSize <=? Z.of_nat (List.length c))%Z; [|exact F].
      unfold evictLeastRecentlyUsed.
      match goal with |- context [fold_left ?f c ?i] => destruct (fold_left f c i) as [lk ls] end.
      destruct (Books.nonempty lk); [|exact F].
      destruct (list_eq_dec Z.eq_dec key lk) as [->|Hne]; [apply find_delete_same|].
      rewrite find_delete_other; [exact F|exact Hne]. }
    rewrite find_app, N. simpl. rewrite key_eqb_refl.
    eexists; split; [reflexivity|split; reflexivity].
Qed.

(** What [set] leaves under another key: the old entry, or nothing when
    the eviction took it. *)
Lemma find_set_other maxSize now key k' v c : k' <> key ->
  find k' (set maxSize now key v c) = find k' c \/ find k' (set maxSize now key v c) = None.
Proof.
  intros Hne. unfold set. destruct (has key c).
  - left. induction c as [|p c IH]; simpl; [reflexivity|].
    destruct (key_eqb (fst p) key) eqn:E.
    + apply key_eqb_spec in E. unfold touch at 1. simpl.
      rewrite E, (key_eqb_neq key k'); [exact IH|congruence].
    + simpl. rewrite IH. reflexivity.
  - rewrite find_app. simpl. rewrite (key_eqb_neq key k') by congruence.
    destruct (maxSize <=? Z.of_nat (List.length c))%Z.
    + unfold evictLeastRecentlyUsed.
      match goal with |- context [fold_left ?f c ?i] => destruct (fold_left f c i) as [lk ls] end.
      destruct (Books.nonempty lk); [|left; destruct (find k' c); reflexivity].
      destruct (list_eq_dec Z.eq_dec k' lk) as [->|Hne'].
      * right. rewrite find_delete_same. reflexivity.
      * left. rewrite find_delete_other by exact Hne'. destruct (find k' c); reflexivity.
    + left. destruct (find k' c); reflexivity.
Qed.

Lemma find_in k c e : find k c = Some e -> In k (keys c).
Proof.
  induction c as [|p c IH]; simpl; [discriminate|].
  destruct (key_eqb (fst p) k) eqn:E; intros H.
  - apply key_eqb_spec in E. left; exact E.
  - right; exact (IH H).
Qed.

Lemma find_not_in k c : ~ In k (keys c) -> find k c = None.
Proof. intros H. destruct (find k c) eqn:F; [|reflexivity]. exfalso. apply H, (find_in _ _ _ F). Qed.

End Generic.

(** ** X14: [set] then [get]

    Reading a key right after storing a value under it at time [t]
    returns that value as long as no more than [ttl] has passed, and
    nothing afterwards, whatever the cache held and whatever the
    eviction did. *)
Theorem set_then_get {T : Type} (ttl : Q) (maxSize : Z) (t t' : Q) (key : ustr) (v : T)
    (c : MemoryCache T) :
  fst (get ttl t' key (set maxSize t key v c)) =
  if Qle_bool (t' - t) ttl then Some v else None.
Proof.
  destruct (find_set_same maxSize t key v c) as [e [F [Hv Ht]]].
  unfold get, isExpired. rewrite F, Ht, Hv.
  destruct (Qle_bool (t' - t) ttl); reflexivity.
Qed.

(** Any sequence of reads: [get] at the given time and key. *)
Fixpoint gets {T : Type} (ttl : Q) (rs : list (Q * ustr)) (c : MemoryCache T) : MemoryCache T :=
  match rs with
  | [] => c
  | (t, k) :: r => gets ttl r (snd (get ttl t k c))
  end.

Lemma find_get_timestamp {T : Type} ttl t k k' (c : MemoryCache T) e' :
  find k' (snd (get ttl t k c)) = Some e' ->
  exists e, find k' c = Some e /\ timestamp e' = timestamp e /\ value e' = value e.
Proof.
  unfold get. destruct (find k c) as [e|] eqn:F; simpl.
  - destruct (isExpired ttl t e); simpl.
    + destruct (list_eq_dec Z.eq_dec k' k) as [->|Hne].
      * rewrite find_delete_same. discriminate.
      * rewrite find_delete_other by exact Hne. intros H. exists e'. auto.
    + destruct (list_eq_dec Z.eq_dec k' k) as [->|Hne].
      * rewrite find_update_same, F. simpl. intros H; injection H as <-.
        exists e. auto.
      * rewrite find_update_other by exact Hne. intros H. exists e'. auto.
  - intros H. exists e'. auto.
Qed.

Lemma gets_timestamp {T : Type} ttl rs key t0 : forall (c : MemoryCache T),
  (forall e, find key c = Some e -> timestamp e = t0) ->
  forall e, find key (gets ttl rs c) = Some e -> timestamp e = t0.
Proof.
  induction rs as [|[t k] rs IH]; intros c Hc; simpl; [exact Hc|].
  apply IH. intros e He.
  destruct (find_get_timestamp ttl t k key c e He) as [e0 [F [Ht _]]].
  rewrite Ht. exact (Hc e0 F).
Qed.

(** ** X15: reads do not extend a lifetime

    A [get] hit refreshes [lastAccess] and [accessCount] but not the
    [timestamp] the expiry is measured from: once more than [ttl] has
    passed since the value was stored, [get] misses, however many reads
    of any keys happened in between. *)
Theorem reads_do_not_extend_ttl {T : Type} (ttl : Q) (maxSize : Z) (t0 t : Q) (key : ustr)
    (v : T) (c : MemoryCache T) (rs : list (Q * ustr)) :
  (ttl < t - t0)%Q ->
  fst (get ttl t key (gets ttl rs (set maxSize t0 key v c))) = None.
Proof.
  intros Hlt.
  destruct (find_set_same maxSize t0 key v c) as [e [F [_ Ht]]].
  assert (Hts : forall e', find key (gets ttl rs (set maxSize t0 key v c)) = Some e' ->
                           timestamp e' = t0).
  { apply gets_timestamp. intros e0 H0. rewrite F in H0. injection H0 as <-. exact Ht. }
  unfold get. destruct (find key (gets ttl rs _)) as [e'|] eqn:F'; [|reflexivity].
  unfold isExpired. rewrite (Hts e' eq_refl).
  destruct (Qle_bool (t - t0) ttl) eqn:B; [|reflexivity].
  apply Qle_bool_iff in B. exfalso. apply (Qlt_not_le _ _ Hlt B).
Qed.

Definition one_hour : Q := 3600000.

Lemma reads_do_not_extend_ttl_witness :
  (one_hour < 3600001 - 0)%Q /\
  fst (get one_hour 3600001%Q [97%Z]
         (gets one_hour [(1000%Q, [97%Z]); (3599999%Q, [97%Z])] (set 10 0%Q [97%Z] 5%nat []))) = None.
Proof.
  assert (H : (one_hour < 3600001 - 0)%Q) by (vm_compute; reflexivity).
  split; [exact H|]. exact (reads_do_not_extend_ttl one_hour 10 0 3600001 [97%Z] 5%nat [] _ H).
Defined.

(** ** X16: a miss

    [get] and [has] of a key that is missing or whose entry has expired
    report a miss; afterwards the key is gone from the cache and every
    other key still finds the entry it had. *)
Theorem miss_removes_only_key {T : Type} (ttl now : Q) (key : ustr) (c : MemoryCache T) :
  (forall e, find key c = Some e -> isExpired ttl now e = true) ->
  fst (get ttl now key c) = None /\ fst (has_at ttl now key c) = false /\
  find key (snd (get ttl now key c)) = None /\ find key (snd (has_at ttl now key c)) = None /\
  (forall k', k' <> key ->
     find k' (snd (get ttl now key c)) = find k' c /\ find k' (snd (has_at ttl now key c)) = find k' c).
Proof.
  intros Hx. unfold get, has_at.
  destruct (find key c) as [e|] eqn:F.
  - rewrite (Hx e eq_refl). cbn [fst snd]. rewrite find_delete_same.
    do 4 (split; [reflexivity|]).
    intros k2 Hk. rewrite (find_delete_other key k2 c Hk). split; reflexivity.
  - cbn [fst snd]. rewrite F. do 4 (split; [reflexivity|]). intros; split; reflexivity.
Qed.

Definition stale_entry : CacheEntry nat :=
  {| value := 1%nat; timestamp := 0; lastAccess := 0; accessCount := 1 |}.
Definition fresh_entry : CacheEntry nat :=
  {| value := 2%nat; timestamp := 7000000; lastAccess := 7000000; accessCount := 1 |}.

Lemma miss_removes_only_key_witness :
  (forall e, find [97%Z] [([97%Z], stale_entry); ([98%Z], fresh_entry)] = Some e ->
             isExpired one_hour 7200001 e = true) /\
  find [98%Z] (snd (get one_hour 7200001 [97%Z] [([97%Z], stale_entry); ([98%Z], fresh_entry)]))
    = Some fresh_entry.
Proof.
  assert (H : forall e, find [97%Z] [([97%Z], stale_entry); ([98%Z], fresh_entry)] = Some e ->
                        isExpired one_hour 7200001 e = true).
  { intros e He. simpl in He. injection He as <-. vm_compute. reflexivity. }
  split; [exact H|].
  destruct (miss_removes_only_key one_hour 7200001 [97%Z] _ H) as [_ [_ [_ [_ K]]]].
  destruct (K [98%Z]) as [G _]; [discriminate|]. rewrite G. reflexivity.
Defined.

(** The entries a full cache may hold: a non-empty key, a non-negative
    [lastAccess] and [accessCount]. *)
Definition entry_ok {T : Type} (p : ustr * CacheEntry T) : Prop :=
  Books.nonempty (fst p) = true /\ (0 <= lastAccess (snd p))%Q /\ (0 <= accessCount (snd p))%Q.

Lemma score_below_now {T : Type} (now : Q) (e : CacheEntry T) :
  (0 < now)%Q -> (0 <= lastAccess e)%Q -> (0 <= accessCount e)%Q ->
  (calculateEvictionScore now e < now)%Q.
Proof. intros H1 H2 H3. unfold calculateEvictionScore. lra. Qed.

Section Evict.
Context {T : Type}.
Variable now : Q.
Variable K : list ustr.

Definition evict_step (acc : ustr * Q) (p : ustr * CacheEntry T) : ustr * Q :=
  let score := calculateEvictionScore now (snd p) in
  if negb (Qle_bool (snd acc) score) then (fst p, score) else acc.

Definition found (acc : ustr * Q) : Prop := In (fst acc) K /\ (snd acc < now)%Q.

Lemma evict_found (l : list (ustr * CacheEntry T)) acc :
  (forall p, In p l -> In (fst p) K) -> found acc -> found (fold_left evict_step l acc).
Proof.
  revert acc. induction l as [|p l IH]; intros acc HK Hf; simpl; [exact Hf|].
  apply IH; [intros q Hq; apply HK; right; exact Hq|].
  unfold evict_step. destruct (Qle_bool (snd acc) _) eqn:B; simpl; [exact Hf|].
  split; [apply HK; left; reflexivity|].
  destruct Hf as [_ Hlt]. simpl.
  apply (Qlt_trans _ (snd acc)); [|exact Hlt].
  apply Qnot_le_lt. intros Hle. apply Qle_bool_iff in Hle. congruence.
Qed.

Lemma evict_first (p : ustr * CacheEntry T) l :
  (0 < now)%Q -> entry_ok p -> (forall q, In q (p :: l) -> In (fst q) K) ->
  found (fold_left evict_step (p :: l) ([], now)).
Proof.
  intros Hn [_ [Hla Hac]] HK. simpl. apply evict_found; [intros q Hq; apply HK; right; exact Hq|].
  assert (Hs := score_below_now now (snd p) Hn Hla Hac).
  unfold evict_step. simpl.
  destruct (Qle_bool now _) eqn:B.
  - apply Qle_bool_iff in B. exfalso. exact (Qlt_not_le _ _ Hs B).
  - split; [apply HK; left; reflexivity|exact Hs].
Qed.

End Evict.

Lemma delete_length_lt {T : Type} (k : ustr) (c : MemoryCache T) :
  In k (keys c) -> (List.length (delete k c) < List.length c)%nat.
Proof.
  unfold keys, delete. induction c as [|p c IH]; simpl; [intros []|].
  intros Hk. destruct (key_eqb (fst p) k) eqn:E; simpl.
  - assert (H := filter_length_le (fun q => negb (key_eqb (fst q) k)) c). lia.
  - destruct Hk as [Hk|Hk]; [rewrite Hk, key_eqb_refl in E; discriminate|].
    specialize (IH Hk). lia.
Qed.

(** ** X17: capacity

    When every entry has a non-empty key and non-negative access data,
    the clock is positive and the key is non-empty, [set] on a cache
    holding at most [maxSize >= 1] entries leaves at most [maxSize]
    entries, and its entries keep the same properties. *)
Theorem set_respects_capacity {T : Type} (maxSize : Z) (now : Q) (key : ustr) (v : T)
    (c : MemoryCache T) :
  (1 <= maxSize)%Z -> (0 < now)%Q -> Books.nonempty key = true ->
  Forall entry_ok c -> (Z.of_nat (List.length c) <= maxSize)%Z ->
  (Z.of_nat (List.length (set maxSize now key v c)) <= maxSize)%Z /\
  Forall entry_ok (set maxSize now key v c).
Proof.
  intros Hm Hn Hk Hok Hlen. unfold set. destruct (has key c).
  - rewrite length_map. split; [exact Hlen|].
    apply Forall_map. eapply Forall_impl; [|exact Hok].
    intros p [H1 [H2 H3]]. destruct (key_eqb (fst p) key); [|split; auto].
    unfold touch, entry_ok. simpl. split; [exact H1|split; [apply Qlt_le_weak; exact Hn|exact H3]].
  - assert (Hnew : entry_ok (key, {| value := v; timestamp := now; lastAccess := now; accessCount := 1 |})).
    { split; [exact Hk|split; simpl; [apply Qlt_le_weak; exact Hn|discriminate]]. }
    destruct (maxSize <=? Z.of_nat (List.length c))%Z eqn:Full.
    + apply Z.leb_le in Full.
      destruct c as [|p l] eqn:Ec; [simpl in Full; lia|].
      assert (HK : forall q, In q (p :: l) -> In (fst q) (keys (p :: l)))
        by (intros q Hq; apply in_map; exact Hq).
      assert (Hf := evict_first now (keys (p :: l)) p l Hn (Forall_inv Hok) HK).
      unfold evictLeastRecentlyUsed.
      match goal with |- context [fold_left ?f (p :: l) ?i] =>
        replace (fold_left f (p :: l) i) with (fold_left (evict_step now) (p :: l) ([], now))
          by reflexivity end.
      destruct (fold_left (evict_step now) (p :: l) ([], now)) as [lk ls] eqn:Ef.
      destruct Hf as [Hin _]. cbn [fst] in Hin.
      assert (Hne : Books.nonempty lk = true).
      { apply in_map_iff in Hin as [q [<- Hq]]. rewrite Forall_forall in Hok. apply (Hok q Hq). }
      rewrite Hne. rewrite length_app. cbn [List.length].
      assert (L := delete_length_lt lk (p :: l) Hin). split; [lia|].
      apply Forall_app; split; [|constructor; [exact Hnew|constructor]].
      unfold delete. rewrite Forall_forall in *. intros q Hq.
      apply filter_In in Hq as [Hq _]. exact (Hok q Hq).
    + apply Z.leb_gt in Full. rewrite length_app. simpl. split; [lia|].
      apply Forall_app; split; [exact Hok|constructor; [exact Hnew|constructor]].
Qed.

Definition old_entry : CacheEntry nat :=
  {| value := 1%nat; timestamp := 0; lastAccess := 0; accessCount := 1 |}.

Lemma set_respects_capacity_witness :
  (Z.of_nat (List.length (set 1 1000 [98%Z] 2%nat [([97%Z], old_entry)])) <= 1)%Z.
Proof.
  refine (proj1 (set_respects_capacity 1 1000 [98%Z] 2%nat [([97%Z], old_entry)] _ _ _ _ _)).
  - lia.
  - vm_compute. reflexivity.
  - reflexivity.
  - constructor; [|constructor]. split; [reflexivity|split; vm_compute; discriminate].
  - simpl. lia.
Defined.

Lemma find_cleanup {T : Type} ttl now key (c : MemoryCache T) :
  NoDup (keys c) ->
  find key (cleanup ttl now c) =
  match find key c with Some e => if isExpired ttl now e then None else Some e | None => None end.
Proof.
  unfold cleanup. induction c as [|p c IH]; intros Hd; simpl; [reflexivity|].
  inversion Hd as [|? ? Hn Hd']; subst.
  destruct (isExpired ttl now (snd p)) eqn:X; simpl.
  - rewrite IH by exact Hd'. destruct (key_eqb (fst p) key) eqn:E; [|reflexivity].
    apply key_eqb_spec in E. subst key. rewrite (find_not_in _ _ Hn). rewrite X. reflexivity.
  - destruct (key_eqb (fst p) key); [rewrite X; reflexivity|exact (IH Hd')].
Qed.

(** ** X18: [cleanup]

    On a cache whose keys are distinct, running [cleanup] first does not
    change what a [get] or a [has] at the same instant reports. *)
Theorem cleanup_invisible {T : Type} (ttl now : Q) (key : ustr) (c : MemoryCache T) :
  NoDup (keys c) ->
  fst (get ttl now key (cleanup ttl now c)) = fst (get ttl now key c) /\
  fst (has_at ttl now key (cleanup ttl now c)) = fst (has_at ttl now key c).
Proof.
  intros Hd. unfold get, has_at. rewrite (find_cleanup ttl now key c Hd).
  destruct (find key c) as [e|]; [|split; reflexivity].
  destruct (isExpired ttl now e) eqn:X; simpl; [split; reflexivity|]. rewrite X. split; reflexivity.
Qed.

Lemma cleanup_invisible_witness :
  NoDup (keys [([97%Z], stale_entry); ([98%Z], fresh_entry)]) /\
  fst (get one_hour 7200001 [98%Z] (cleanup one_hour 7200001 [([97%Z], stale_entry); ([98%Z], fresh_entry)]))
  = fst (get one_hour 7200001 [98%Z] [([97%Z], stale_entry); ([98%Z], fresh_entry)]).
Proof.
  assert (H : NoDup (keys [([97%Z], stale_entry); ([98%Z], fresh_entry)])).
  { simpl. constructor; [simpl; intros [E|[]]; discriminate|constructor; [intros []|constructor]]. }
  split; [exact H|]. exact (proj1 (cleanup_invisible one_hour 7200001 [98%Z] _ H)).
Defined.

Lemma detail_key_inj a b : buildDetailCacheKey a = buildDetailCacheKey b -> a = b.
Proof. unfold buildDetailCacheKey. apply app_inv_head. Qed.

(** ** X20: [BookMemoryCache]

    After [invalidateBook id], [getBookDetail id] misses; invalidating or
    caching one book never changes the entry of another book id, except
    that caching may evict it. *)
Theorem book_cache_isolation (ttl now : Q) (maxSize : Z) (bookId : ustr) (b : Books.Book)
    (c : MemoryCache Books.Book) :
  fst (getBookDetail ttl now bookId (invalidateBook bookId c)) = None /\
  forall other, other <> bookId ->
    find (buildDetailCacheKey other) (invalidateBook bookId c) = find (buildDetailCacheKey other) c /\
    (find (buildDetailCacheKey other) (cacheBookDetail maxSize now bookId b c)
       = find (buildDetailCacheKey other) c \/
     find (buildDetailCacheKey other) (cacheBookDetail maxSize now bookId b c) = None).
Proof.
  split.
  - unfold getBookDetail, invalidateBook, get. rewrite find_delete_same. reflexivity.
  - intros other Hne. assert (Hk : buildDetailCacheKey other <> buildDetailCacheKey bookId)
      by (intros E; apply Hne, detail_key_inj, E).
    split; [apply find_delete_other; exact Hk|].
    apply find_set_other. exact Hk.
Qed.

End CacheOpsProofs.

(* ------------------------------------------------------------------ *)
(** ** BookService: detail lookups keep book ids *)
(* ------------------------------------------------------------------ *)

Module ServiceIdProofs.
Import JS Books Detail Service.

(** Every detail entry of the cache holds the book of its id. *)
Definition detail_inv (st : list (ustr * Book)) : Prop :=
  forall k b, lookup (detail_prefix ++ k) st = Some b -> id b = k.

Lemma update_id b u b' : update b u = inr b' -> id b' = id b.
Proof.
  unfold update, try_bind.
  destruct (upd (u_title u) _ _); [discriminate|].
  destruct (upd (u_authors u) _ _); [discriminate|].
  destruct (upd (u_publisher u) _ _); [discriminate|].
  destruct (upd (u_description u) _ _); [discriminate|].
  destruct (upd (u_coverImageUrl u) _ _); [discriminate|].
  intros H; injection H as <-. reflexivity.
Qed.

Lemma enrichBook_id cov x b pr b' : fst (enrichBook cov x b pr) = inr b' -> id b' = id b.
Proof.
  unfold enrichBook. destruct (extractDetailedInfo x pr) as [u pr'].
  destruct (update b _) as [e|b0] eqn:U; [discriminate|].
  simpl. intros H; injection H as <-. exact (update_id _ _ _ U).
Qed.

Lemma with_toc_id b t : id (with_toc b t) = id b.
Proof.
  unfold with_toc. destruct t as [[|c r]|]; reflexivity.
Qed.

Lemma detail_inv_emit o s : detail_inv (store s) -> detail_inv (store (emit o s)).
Proof. intros H. exact H. Qed.

Lemma detail_inv_set bookId b s :
  id b = bookId -> detail_inv (store s) -> detail_inv (store (cache_set (detail_prefix ++ bookId) b s)).
Proof.
  intros Hb H k b' L. unfold cache_set in L. cbn [store lookup] in L.
  destruct (ustr_eqb (detail_prefix ++ k) (detail_prefix ++ bookId)) eqn:E.
  - injection L as <-. unfold ustr_eqb in E.
    destruct (list_eq_dec Z.eq_dec (detail_prefix ++ k) (detail_prefix ++ bookId)) as [Ek|];
      [|discriminate].
    apply app_inv_head in Ek. congruence.
  - rewrite ServiceProofs.lookup_filter_other in L by exact E. exact (H k b' L).
Qed.

Section Env.
Variable fetchDetail : ustr -> Try DetailPage.
Variable coverUrlFor : ustr -> ustr.
Variable fetchToc : ustr -> option ustr.

Lemma fetchAndEnrich_ids t bookId s :
  detail_inv (store s) ->
  (forall b, fst (fetchAndEnrich fetchDetail coverUrlFor fetchToc t bookId s) = inr b -> id b = bookId) /\
  detail_inv (store (snd (fetchAndEnrich fetchDetail coverUrlFor fetchToc t bookId s))).
Proof.
  intros H. unfold fetchAndEnrich.
  destruct (fetchDetail _) as [e|dp]; [split; [discriminate|exact H]|].
  destruct (fst (enrichBook _ _ _ _)) as [pe|eb] eqn:En; [split; [discriminate|exact H]|].
  assert (Hid : id eb = bookId) by (rewrite (enrichBook_id _ _ _ _ _ En); reflexivity).
  set (fb := if t then with_toc eb (fetchToc bookId) else eb).
  assert (Hfb : id fb = bookId) by (unfold fb; destruct t; [rewrite with_toc_id|]; exact Hid).
  set (fb2 := if toc_missing fb then with_toc fb (fetchToc bookId) else fb).
  assert (Hfb2 : id fb2 = bookId)
    by (unfold fb2; destruct (toc_missing fb); [rewrite with_toc_id|]; exact Hfb).
  split.
  - intros b Hb. cbn [fst] in Hb. injection Hb as <-. exact Hfb2.
  - apply detail_inv_set; [exact Hfb2|exact H].
Qed.

Lemma getBookDetail_ids t bookId s :
  detail_inv (store s) ->
  (forall b, fst (getBookDetail fetchDetail coverUrlFor fetchToc t bookId s) = inr b -> id b = bookId) /\
  detail_inv (store (snd (getBookDetail fetchDetail coverUrlFor fetchToc t bookId s))).
Proof.
  intros H. unfold getBookDetail, cache_has. cbn [store].
  destruct (lookup (detail_prefix ++ bookId) (store s)) as [cb|] eqn:L.
  - cbn [fst snd store emit]. rewrite L.
    destruct (hasEnriched cb).
    + split; [|exact H]. intros b Hb. injection Hb as <-. exact (H bookId cb L).
    + apply fetchAndEnrich_ids. exact H.
  - apply fetchAndEnrich_ids. exact H.
Qed.

End Env.

(** ** X21: enrichment keeps the books

    When every `detail:<id>` entry of the cache holds a book with that
    id (as [getBookDetail] leaves it), [getBookDetail id] only ever
    returns a book with that id, and [enrichBooksWithDetails] returns
    one book per listing book, with the same ids in the same order; both
    keep the property of the cache. *)
Theorem enrichBooksWithDetails_ids (fetchDetail : ustr -> Try DetailPage)
    (coverUrlFor : ustr -> ustr) (fetchToc : ustr -> option ustr)
    (books : list Book) (s : Svc) :
  detail_inv (store s) ->
  (forall t bookId b,
     fst (getBookDetail fetchDetail coverUrlFor fetchToc t bookId s) = inr b -> id b = bookId) /\
  map id (fst (enrichBooksWithDetails fetchDetail coverUrlFor fetchToc books s)) = map id books /\
  detail_inv (store (snd (enrichBooksWithDetails fetchDetail coverUrlFor fetchToc books s))).
Proof.
  intros H. split; [intros t bookId; apply (proj1 (getBookDetail_ids _ _ _ t bookId s H))|].
  revert s H. induction books as [|b r IH]; intros s H; [split; [reflexivity|exact H]|].
  cbn [enrichBooksWithDetails].
  destruct (getBookDetail_ids fetchDetail coverUrlFor fetchToc false (id b) s H) as [R1 I1].
  destruct (getBookDetail fetchDetail coverUrlFor fetchToc false (id b) s) as [res s1].
  cbn [fst snd] in R1, I1.
  destruct (IH s1 I1) as [R2 I2].
  destruct (enrichBooksWithDetails fetchDetail coverUrlFor fetchToc r s1) as [bs s2].
  cbn [fst snd map] in *. split; [|exact I2].
  rewrite R2. f_equal. destruct res as [e|d]; [reflexivity|exact (R1 d eq_refl)].
Qed.

Lemma rich_state_inv : detail_inv (store ServiceProofs.rich_state).
Proof.
  intros k b L. cbn [ServiceProofs.rich_state store lookup] in L.
  destruct (ustr_eqb (detail_prefix ++ k) (detail_prefix ++ [49%Z])) eqn:E; [|discriminate].
  injection L as <-. unfold ustr_eqb in E.
  destruct (list_eq_dec Z.eq_dec (detail_prefix ++ k) (detail_prefix ++ [49%Z])) as [Ek|];
    [|discriminate].
  apply app_inv_head in Ek. subst k. reflexivity.
Qed.

Lemma enrichBooksWithDetails_ids_witness :
  detail_inv (store ServiceProofs.rich_state) /\
  map id (fst (enrichBooksWithDetails (fun _ => inl (ExnMsg "offline")) (fun c => c) (fun _ => None)
                 [ServiceProofs.rich_book; ServiceProofs.isbn_only_book] ServiceProofs.rich_state))
  = [[49%Z]; [49%Z]].
Proof.
  split; [exact rich_state_inv|].
  exact (proj1 (proj2 (enrichBooksWithDetails_ids (fun _ => inl (ExnMsg "offline")) (fun c => c)
                         (fun _ => None) [ServiceProofs.rich_book; ServiceProofs.isbn_only_book]
                         ServiceProofs.rich_state rich_state_inv))).
Defined.

End ServiceIdProofs.

(* ------------------------------------------------------------------ *)
(** ** SearchResultParser: result count, ids and barcodes, containers *)
(* ------------------------------------------------------------------ *)

Module ListingBoundsProofs.
Import JS Books Listing.

Lemma digit_not_space c : is_digit c = true -> is_space c = false.
Proof.
  unfold is_digit, in_range. intros H. apply andb_prop in H as [H1 H2].
  apply Z.leb_le in H1. apply Z.leb_le in H2.
  assert (c = 48 \/ c = 49 \/ c = 50 \/ c = 51 \/ c = 52 \/ c = 53 \/ c = 54 \/ c = 55
          \/ c = 56 \/ c = 57) as Hc by lia.
  repeat destruct Hc as [->|Hc]; try reflexivity. subst c. reflexivity.
Qed.

Lemma ltrim_digits s : forallb is_digit s = true -> ltrim s = s.
Proof.
  destruct s as [|c r]; [reflexivity|]. simpl. intros H. apply andb_prop in H as [H _].
  rewrite (digit_not_space c H). reflexivity.
Qed.

Lemma trim_digits s : forallb is_digit s = true -> trim s = s.
Proof.
  intros H. unfold trim. rewrite (ltrim_digits s H).
  rewrite ltrim_digits; [apply rev_involutive|].
  apply forallb_forall. intros c Hc. apply in_rev in Hc.
  rewrite forallb_forall in H. exact (H c Hc).
Qed.

(** What a listing book carries: a non-empty id, and an ISBN only when
    the cover image's `data-kbbfn-bid` is a 12- or 13-digit barcode. *)
Definition listing_ok (b : Book) : Prop :=
  nonempty (id b) = true /\ (isbn b = None \/ exists s, isbn b = Some s /\ isBarcode s = true).

Section Env.
Variable cleanTitle : ustr -> ustr.
Variable buildCoverImageUrl : ustr -> ustr.
Variable buildDetailPageUrl : ustr -> ustr.
Variable tempId : ustr.

Lemma parseItem_ok it b :
  parseItem cleanTitle buildCoverImageUrl buildDetailPageUrl tempId it = Some b -> listing_ok b.
Proof.
  unfold parseItem.
  destruct (match it_linkBookId it with
            | Some bid => (buildDetailPageUrl bid, bid) | None => ([], tempId) end) as [url bookId].
  destruct (JS.length (it_title it) <? 2)%nat; [discriminate|].
  destruct (nonempty bookId) eqn:Hid; [|discriminate]. cbn [negb].
  intros H; injection H as <-. split; [exact Hid|]. cbn [create isbn c_isbn].
  destruct (nonempty (it_bid it) && isBarcode (it_bid it)) eqn:Hb.
  - destruct (nonempty (it_bid it)) eqn:Hn; [|discriminate]. right.
    exists (it_bid it). apply andb_prop in Hb as [_ Hb]. split; [|exact Hb].
    unfold isBarcode in Hb. apply andb_prop in Hb as [Hd _]. cbn [option_map].
    f_equal. exact (trim_digits _ Hd).
  - left. reflexivity.
Qed.

Lemma parseBatch_spec items rs books :
  Forall listing_ok books ->
  Forall listing_ok (parseBatch cleanTitle buildCoverImageUrl buildDetailPageUrl tempId items rs books) /\
  (Z.of_nat (List.length (parseBatch cleanTitle buildCoverImageUrl buildDetailPageUrl tempId items rs books))
     <= Z.max (Z.of_nat (List.length books)) rs)%Z.
Proof.
  revert books. induction items as [|it r IH]; intros books Hb; simpl; [split; [exact Hb|lia]|].
  destruct (Z.of_nat (List.length books) <? rs)%Z eqn:L; [|split; [exact Hb|lia]].
  apply Z.ltb_lt in L.
  destruct (parseItem cleanTitle buildCoverImageUrl buildDetailPageUrl tempId it) as [b|] eqn:P.
  - destruct (IH (books ++ [b])) as [F B].
    { apply Forall_app; split; [exact Hb|constructor; [exact (parseItem_ok _ _ P)|constructor]]. }
    split; [exact F|]. rewrite length_app in B. simpl in B. lia.
  - destruct (IH books Hb) as [F B]. split; [exact F|lia].
Qed.

Lemma parseItems_from_spec items fuel m books :
  Forall listing_ok books -> (Z.of_nat (List.length books) <= Z.max m 0)%Z ->
  Forall listing_ok (parseItems_from cleanTitle buildCoverImageUrl buildDetailPageUrl tempId items fuel m books) /\
  (Z.of_nat (List.length (parseItems_from cleanTitle buildCoverImageUrl buildDetailPageUrl tempId items fuel m books))
     <= Z.max m 0)%Z.
Proof.
  revert items books. induction fuel as [|f IH]; intros items books Hb Hl; cbn [parseItems_from];
    [split; assumption|].
  destruct items as [|it r]; [split; assumption|].
  destruct (Z.of_nat (List.length books) <? m)%Z eqn:L; [|split; assumption].
  apply Z.ltb_lt in L.
  destruct (parseBatch_spec (firstn 10 (it :: r)) (m - Z.of_nat (List.length books)) [] (Forall_nil _))
    as [F B].
  apply IH.
  - apply Forall_app; split; assumption.
  - rewrite length_app, Nat2Z.inj_add. cbn [List.length Z.of_nat] in B. lia.
Qed.

End Env.

(** ** X22: [parseBooks]

    A successful [parseBooks] returns at most [max maxResults 0] books,
    each with a non-empty id and, when it has an ISBN, an ISBN that is a
    12- or 13-digit barcode. *)
Theorem parseBooks_bounds (cleanTitle buildCoverImageUrl buildDetailPageUrl : ustr -> ustr)
    (tempId : ustr) (p : SearchPage) (maxResults : Z) (bs : list Book) :
  parseBooks cleanTitle buildCoverImageUrl buildDetailPageUrl tempId p maxResults = inr bs ->
  (Z.of_nat (List.length bs) <= Z.max maxResults 0)%Z /\ Forall listing_ok bs.
Proof.
  unfold parseBooks. destruct (findResultItems p) as [|it r]; [discriminate|].
  intros H; injection H as <-. unfold parseItems.
  destruct (parseItems_from_spec cleanTitle buildCoverImageUrl buildDetailPageUrl tempId
              (it :: r) (List.length (it :: r)) maxResults [] (Forall_nil _)) as [F B];
    [simpl; lia|].
  split; assumption.
Qed.

(** A listing item with a detail link `S1` and a 13-digit barcode. *)
Definition sample_item (n : nat) : Item :=
  {| it_node := n; it_visible := true; it_hasDetailLink := true;
     it_text := repeat 97%Z 12; it_className := []; it_textContentLength := 12;
     it_title := [65; 66]; it_linkBookId := Some [83; 49];
     it_authors := []; it_publisher := []; it_publishDate := None;
     it_bid := [57; 55; 56; 56; 57; 51; 54; 52; 51; 52; 49; 50; 48]; it_cover := [] |}.

Definition sample_page : SearchPage :=
  {| sp_items := [sample_item 0; sample_item 1; sample_item 2]; sp_links := [] |}.

Lemma parseBooks_bounds_witness :
  exists bs, parseBooks (fun t => t) (fun c => c) (fun u => u) [] sample_page 2 = inr bs /\
             (Z.of_nat (List.length bs) <= 2)%Z /\ Forall listing_ok bs.
Proof.
  eexists. split; [vm_compute; reflexivity|].
  match goal with |- (_ <= 2)%Z /\ Forall _ ?l =>
    assert (H : parseBooks (fun t => t) (fun c => c) (fun u => u) [] sample_page 2 = inr l)
      by (vm_compute; reflexivity) end.
  exact (parseBooks_bounds (fun t => t) (fun c => c) (fun u => u) [] sample_page 2 _ H).
Defined.

(** The loop of [findItemsByLinks]. *)
Fixpoint links_go (links : list (list Item)) (processed : list nat) (items : list Item) : list Item :=
  match links with
  | [] => items
  | l :: r =>
      match findBookContainer l with
      | Some c =>
          if existsb (Nat.eqb (it_node c)) processed then links_go r processed items
          else let items := items ++ [c] in
               if (20 <=? List.length items)%nat then items
               else links_go r (it_node c :: processed) items
      | None => links_go r processed items
      end
  end.

Lemma findItemsByLinks_go links : findItemsByLinks links = links_go links [] [].
Proof. reflexivity. Qed.

Lemma links_go_spec links : forall processed items,
  (forall n, In n processed <-> In n (map it_node items)) ->
  NoDup (map it_node items) -> (List.length items < 20)%nat ->
  NoDup (map it_node (links_go links processed items)) /\
  (List.length (links_go links processed items) <= 20)%nat.
Proof.
  induction links as [|l r IH]; intros processed items Hp Hd Hl; cbn [links_go];
    [split; [exact Hd|lia]|].
  destruct (findBookContainer l) as [c|]; [|apply IH; assumption].
  destruct (existsb (Nat.eqb (it_node c)) processed) eqn:E; [apply IH; assumption|].
  assert (Hn : ~ In (it_node c) (map it_node items)).
  { intros Hin. apply Hp in Hin.
    assert (existsb (Nat.eqb (it_node c)) processed = true)
      by (apply existsb_exists; exists (it_node c); split; [exact Hin|apply Nat.eqb_refl]).
    congruence. }
  assert (Hd' : NoDup (map it_node (items ++ [c]))).
  { rewrite map_app. simpl. apply NoDup_app; [exact Hd|constructor; [intros []|constructor]|].
    intros x Hx [<-|[]]. exact (Hn Hx). }
  destruct (20 <=? List.length (items ++ [c]))%nat eqn:L.
  - split; [exact Hd'|]. rewrite length_app. simpl. lia.
  - apply Nat.leb_gt in L. apply IH; [|exact Hd'|exact L].
    intros n. rewrite map_app. simpl. rewrite in_app_iff. simpl.
    split; [intros [<-|H]; [right; left; reflexivity|left; apply Hp, H]|].
    intros [H|[<-|[]]]; [right; apply Hp, H|left; reflexivity].
Qed.

(** ** X23: [findItemsByLinks]

    The link-based fallback returns at most 20 containers, and never the
    same element twice. *)
Theorem findItemsByLinks_distinct (links : list (list Item)) :
  NoDup (map it_node (findItemsByLinks links)) /\ (List.length (findItemsByLinks links) <= 20)%nat.
Proof.
  rewrite findItemsByLinks_go. apply links_go_spec; [reflexivity|constructor|simpl; lia].
Qed.

End ListingBoundsProofs.
